(** * img2cluster: the stippling renderer (src/renderer/utils.ts, src/renderer/App.tsx)

    A shallow embedding of the grayscale classifier, of the banded sampling
    loop [processImage]/[processChunk] and of the [Painter] component that
    drives it, with the properties of the specification stated over it.

    Number model.  A JavaScript number is a binary64 value.  The classifier
    is embedded over the primitive binary64 floats.  On the geometry path
    (viewport and fitted sizes, offsets, pixel indices, jitter, exported
    coordinates) a finite number is embedded as the rational it denotes, and
    every arithmetic operation of the source rounds its exact result to
    binary64 ([JS.binary64]: nearest, ties to even, 53-bit significand), as
    the code's doubles do; comparisons are exact.  Loop counters and band
    indices are integers far below 2^53, on which the arithmetic is exact.
    The exponent range is not modelled (no overflow to Infinity, no gradual
    underflow), nor is division by zero, which JavaScript answers with an
    infinity or NaN: the results are meant for pictures of positive size,
    sizes in pixels and a positive scale factor. *)

From Stdlib Require Import ZArith QArith Qround Qabs List Sorted String Ascii Bool Lia.
From Stdlib Require Import PrimFloat Uint63.
From Stdlib Require Import FloatOps FloatAxioms SpecFloat Lqa.
Import ListNotations.

Local Open Scope Z_scope.

(* ================================================================== *)
(** * JavaScript built-ins used by the renderer *)
(* ================================================================== *)

Module JS.

Local Open Scope string_scope.

(** ** Strings *)

Fixpoint take (n : nat) (s : string) : string :=
  match n, s with
  | S n', String c s' => String c (take n' s')
  | _, _ => EmptyString
  end.

Fixpoint drop (n : nat) (s : string) : string :=
  match n, s with
  | S n', String _ s' => drop n' s'
  | _, _ => s
  end.

(** [s.replace(a, b)] with one-character strings: only the first occurrence
    is replaced. *)
Fixpoint replace (a b : ascii) (s : string) : string :=
  match s with
  | EmptyString => EmptyString
  | String c s' => if Ascii.eqb c a then String b s' else String c (replace a b s')
  end.

(** [parts.join(sep)] *)
Definition join (sep : string) (parts : list string) : string :=
  String.concat sep parts.

(** Truthiness of a [string | null | undefined] value: the empty string is
    falsy as well. *)
Definition truthy (p : option string) : bool :=
  match p with
  | Some (String _ _) => true
  | _ => false
  end.

(** ** Numbers on the geometry path *)

Definition Qltb (x y : Q) : bool := negb (Qle_bool y x).

(** [floor (log2 (a / b))] for [0 < a]. *)
Definition ilog2 (a : Z) (b : positive) : Z :=
  let d := (Z.log2 a - Z.log2 (Zpos b))%Z in
  if (if (0 <=? d)%Z then (Zpos b * 2 ^ d <=? a)%Z else (Zpos b <=? a * 2 ^ (- d))%Z)
  then d else (d - 1)%Z.

(** The integer nearest to [n / d], ties to the even one, for [0 < d]. *)
Definition round_even (n d : Z) : Z :=
  let f := (n / d)%Z in
  match (2 * (n mod d) ?= d)%Z with
  | Lt => f
  | Gt => (f + 1)%Z
  | Eq => if Z.even f then f else (f + 1)%Z
  end.

(** Rounding to binary64: the significand of [q] is scaled to 53 bits,
    rounded to the nearest integer, ties to even, and scaled back. *)
Definition binary64 (q : Q) : Q :=
  if (Qnum q =? 0)%Z then 0
  else
    let e := (ilog2 (Z.abs (Qnum q)) (Qden q) - 52)%Z in
    if (0 <=? e)%Z
    then inject_Z (round_even (Qnum q) (Zpos (Qden q) * 2 ^ e) * 2 ^ e)
    else Qred (round_even (Qnum q * 2 ^ (- e)) (Zpos (Qden q))
               # Z.to_pos (2 ^ (- e))).

(** The arithmetic operators on numbers (ECMA-262, Number::add and the
    like): the exact result, rounded. *)
Definition Number_add (x y : Q) : Q := binary64 (x + y).
Definition Number_subtract (x y : Q) : Q := binary64 (x - y).
Definition Number_multiply (x y : Q) : Q := binary64 (x * y).
Definition Number_divide (x y : Q) : Q := binary64 (x / y).

Infix "+'" := Number_add (at level 50, left associativity).
Infix "-'" := Number_subtract (at level 50, left associativity).
Infix "*'" := Number_multiply (at level 40, left associativity).
Infix "/'" := Number_divide (at level 40, left associativity).

Definition Math_PI : Q := 884279719003555 # 281474976710656.

(** [Math.round]: the nearest integer, ties towards +infinity. *)
Definition Math_round (x : Q) : Z := Qfloor (x + (1 # 2)).

Definition Math_ceil (x : Q) : Z := Qceiling x.

Definition Math_min (x y : Q) : Q := if Qle_bool x y then x else y.

(** Decimal digits of a non-negative integer, most significant first. *)
Definition digit (d : Z) : ascii := ascii_of_nat (48 + Z.to_nat d).

Fixpoint digits_from (fuel : nat) (n : Z) (acc : string) : string :=
  match fuel with
  | O => acc
  | S f =>
      let acc' := String (digit (n mod 10)) acc in
      if (n <? 10)%Z then acc' else digits_from f (n / 10) acc'
  end.

Definition digits (n : Z) : string :=
  digits_from (S (Z.to_nat (Z.log2 n))) n EmptyString.

Section ToFixed.

(** [Number::toString] is needed by [toFixed] only for magnitudes of 10^21
    and more, where it switches to exponent notation; it is left abstract. *)
Variable Number_toString : Q -> string.

(** [x.toFixed(2)], following ECMA-262 (Number.prototype.toFixed) step by
    step for a finite [x]. *)
Definition toFixed2 (x : Q) : string :=
  let s := if Qltb x 0 then "-" else "" in
  let x := if Qltb x 0 then (- x)%Q else x in
  if Qle_bool (inject_Z (10 ^ 21)) x then s ++ Number_toString x
  else
    let n := Qfloor (x * 100 + (1 # 2)) in
    let m := if (n =? 0)%Z then "0" else digits n in
    let k := String.length m in
    let m := if (k <=? 2)%nat then take (3 - k) "00" ++ m else m in
    let k := if (k <=? 2)%nat then 3%nat else k in
    s ++ take (k - 2) m ++ "." ++ drop (k - 2) m.

End ToFixed.

End JS.

(* ================================================================== *)
(** * utils.ts *)
(* ================================================================== *)

Module Utils.

(** [getGrayscaleValue(alpla, r, g, b)]. *)
Definition getGrayscaleValue (alpla r g b : float) : float :=
  let grayscale := (0.299 * r + 0.587 * g + 0.114 * b)%float in
  if (alpla <? grayscale)%float then 255%float else 0%float.

End Utils.

(* ================================================================== *)
(** * App.tsx: the sampling engine *)
(* ================================================================== *)

Module Engine.

Import JS.
Local Open Scope string_scope.

(** A decoded picture.  [drawImage] scales it into the fitted rectangle and
    [getImageData] reads that rectangle back; the browser's resampling is
    folded into [raster]: [raster img w h] is the RGBA byte array read back
    after the picture was drawn [w] by [h]. *)
Record Image : Type := mkImage {
  img_width : Z;
  img_height : Z;
  raster : Q -> Q -> list Z
}.

(** What the code does to a 2d context. *)
Inductive CanvasOp : Type :=
| SetSize (w h : Q)
| ClearRect (x y w h : Q)
| DrawImage (img : Image) (x y w h : Q)
| SetFillStyle (colour : string)
| BeginPath
| Arc (x y radius startAngle endAngle : Q)
| Fill.

(** Messages to the main process. *)
Inductive IpcMessage : Type :=
| ClearFile
| Save
| SaveChunk (filePath chunk : string).

(** The variables [processChunk] closes over: the arguments of
    [processImage], what it derives from them, and [scaleFactor] of the
    enclosing component scope. *)
Record Closure : Type := mkClosure {
  context : nat;
  height : Q;
  inversive : bool;
  spacing : Z;
  alpha : Z;
  filePath : option string;
  scaleFactor : Q;
  drawWidth : Q;
  drawHeight : Q;
  offsetX : Q;
  offsetY : Q;
  data : list Z;
  totalChunks : Z
}.

(** Ghost record of one visited grid point: where, and, if it was accepted,
    the centre of the dot drawn and the line pushed. *)
Record Sample : Type := mkSample {
  at_x : Z;
  at_y : Z;
  outcome : option (Q * Q * string)
}.

Record World : Type := mkWorld {
  randoms : nat;                      (* calls of Math.random() so far *)
  surface : list (nat * CanvasOp);    (* operations per context, oldest first *)
  sent : list IpcMessage;             (* ipcRenderer.sendMessage, oldest first *)
  frames : list (Closure * Z);        (* requestAnimationFrame callbacks *)
  samples : list Sample               (* ghost: grid points visited *)
}.

(** State passing with divergence: [None] is a loop that never ends. *)
Definition M (A : Type) : Type := World -> option (A * World).

Definition ret {A} (a : A) : M A := fun w => Some (a, w).

Definition bind {A B} (c : M A) (k : A -> M B) : M B :=
  fun w => match c w with
           | Some (a, w') => k a w'
           | None => None
           end.

Notation "x <- c ;; k" := (bind c (fun x => k))
  (at level 61, c at next level, right associativity).
Notation "c ;;; k" := (bind c (fun _ => k))
  (at level 61, right associativity).

Definition on_context (ctx : nat) (op : CanvasOp) : M unit := fun w =>
  Some (tt, mkWorld (randoms w) (surface w ++ [(ctx, op)])%list (sent w) (frames w) (samples w)).

Definition sendMessage (m : IpcMessage) : M unit := fun w =>
  Some (tt, mkWorld (randoms w) (surface w) (sent w ++ [m])%list (frames w) (samples w)).

Definition requestAnimationFrame (cb : Closure * Z) : M unit := fun w =>
  Some (tt, mkWorld (randoms w) (surface w) (sent w) (frames w ++ [cb])%list (samples w)).

Definition observe (s : Sample) : M unit := fun w =>
  Some (tt, mkWorld (randoms w) (surface w) (sent w) (frames w) (samples w ++ [s])%list).

(** [for (let v = start; v < stop; v += step) acc = body(v, acc)].  With
    [step >= 1] the loop makes at most [ceil stop - start] rounds, so the
    fuel below is never exhausted; it is exhausted exactly when the loop is
    entered with [step <= 0], where the source does not terminate. *)
Fixpoint for_steps {A} (fuel : nat) (v : Z) (stop : Q) (step : Z)
    (body : Z -> A -> M A) (acc : A) : M A :=
  match fuel with
  | O => fun _ => None
  | S f =>
      if Qltb (inject_Z v) stop
      then acc' <- body v acc ;; for_steps f (v + step) stop step body acc'
      else ret acc
  end.

Definition for_loop {A} (start : Z) (stop : Q) (step : Z)
    (body : Z -> A -> M A) (acc : A) : M A :=
  for_steps (S (Z.to_nat (Qceiling stop - start))) start stop step body acc.

(** An integer as a JavaScript number (exact below 2^53). *)
Definition number_of_Z (z : Z) : float :=
  if (z <? 0)%Z then (- of_uint63 (Uint63.of_Z (- z)))%float
  else of_uint63 (Uint63.of_Z z).

(** [data[i]] on a Uint8ClampedArray: a byte, or undefined when [i] is not
    an index of the array (negative, fractional or past the end). *)
Definition typed_get (data : list Z) (i : Q) : option Z :=
  let i' := Qred i in
  if ((Qden i' =? 1)%positive && (0 <=? Qnum i')%Z)%bool
  then nth_error data (Z.to_nat (Qnum i'))
  else None.

(** ToNumber of such a value: undefined becomes NaN. *)
Definition to_number (v : option Z) : float :=
  match v with
  | Some byte => number_of_Z byte
  | None => nan
  end.

Definition chunkSize : Z := 100.

(** [const i = (y * drawWidth + x) * 4]. *)
Definition pixel_index (e : Closure) (x y : Z) : Q :=
  (inject_Z y *' drawWidth e +' inject_Z x) *' 4.

(** The classifier applied to the sample at grid point [(x, y)]. *)
Definition grayscale_at (e : Closure) (x y : Z) : float :=
  let i := pixel_index e x y in
  Utils.getGrayscaleValue (number_of_Z (alpha e))
    (to_number (typed_get (data e) i))
    (to_number (typed_get (data e) (i +' 1)))
    (to_number (typed_get (data e) (i +' 2))).

(** The condition of the [if] inside the two loops. *)
Definition accepted (e : Closure) (x y : Z) : bool :=
  let grayscale := grayscale_at e x y in
  ((240 <? grayscale)%float && negb (inversive e))
  || ((grayscale <=? 240)%float && inversive e).

Section Run.

(** The sources of the jitter: the [n]-th value of [Math.random()], and the
    trigonometric functions. *)
Variable random : nat -> Q.
Variables Math_cos Math_sin : Q -> Q.
Variable Number_toString : Q -> string.

Definition Math_random : M Q := fun w =>
  Some (random (randoms w),
        mkWorld (S (randoms w)) (surface w) (sent w) (frames w) (samples w)).

(** The template literal pushed on [positions]. *)
Definition position_line (scaledX scaledY : Q) : string :=
  replace "." "," (toFixed2 Number_toString scaledX) ++ " "
  ++ replace "." "," (toFixed2 Number_toString scaledY).

(** Body of the inner loop. *)
Definition sample_point (e : Closure) (y x : Z) (positions : list string)
  : M (list string) :=
  if accepted e x y then
    let radius := inject_Z (spacing e) /' 2 in
    r1 <- Math_random ;;
    let randomAngle := r1 *' Math_PI *' 2 in
    r2 <- Math_random ;;
    let randomRadius := r2 *' radius in
    let canvasX := offsetX e +' inject_Z x +' randomRadius *' Math_cos randomAngle in
    let canvasY := offsetY e +' inject_Z y +' randomRadius *' Math_sin randomAngle in
    let scaledX := inject_Z (Math_round (canvasX /' scaleFactor e *' 100)) /' 100 in
    let scaledY :=
      inject_Z (Math_round ((height e -' canvasY) /' scaleFactor e *' 100)) /' 100 in
    on_context (context e) (SetFillStyle "black") ;;;
    on_context (context e) BeginPath ;;;
    on_context (context e) (Arc canvasX canvasY 2 0 (Math_PI *' 2)) ;;;
    on_context (context e) Fill ;;;
    observe (mkSample x y (Some (canvasX, canvasY, position_line scaledX scaledY))) ;;;
    ret (positions ++ [position_line scaledX scaledY])%list
  else
    observe (mkSample x y None) ;;;
    ret positions.

(** [processChunk(chunkIndex)]. *)
Definition processChunk (e : Closure) (chunkIndex : Z) : M unit :=
  let startY := (chunkIndex * chunkSize)%Z in
  let endY := Math_min (inject_Z (startY + chunkSize)) (drawHeight e) in
  positions <-
    for_loop startY endY (spacing e) (fun y positions =>
      for_loop 0 (drawWidth e) (spacing e) (fun x positions =>
        sample_point e y x positions) positions) [] ;;
  (if truthy (filePath e)
   then sendMessage (SaveChunk (match filePath e with Some p => p | None => "" end)
                               (join (String "010" "") positions ++ String "010" ""))
   else ret tt) ;;;
  if (chunkIndex <? totalChunks e - 1)%Z
  then requestAnimationFrame (e, (chunkIndex + 1)%Z)
  else ret tt.

(** [processImage], with the [scaleFactor] its closure holds made explicit. *)
Definition processImage (scaleFactor : Q) (context : nat) (img : Image)
    (width height : Q) (inversive : bool) (spacing alpha : Z)
    (filePath : option string) : M unit :=
  let aspectRatio := inject_Z (img_width img) /' inject_Z (img_height img) in
  let drawWidth := if Qltb 1 aspectRatio then width else height *' aspectRatio in
  let drawHeight := if Qltb 1 aspectRatio then width /' aspectRatio else height in
  let offsetX := (width -' drawWidth) /' 2 in
  let offsetY := (height -' drawHeight) /' 2 in
  on_context context (ClearRect 0 0 width height) ;;;
  on_context context (DrawImage img offsetX offsetY drawWidth drawHeight) ;;;
  let data := raster img drawWidth drawHeight in
  on_context context (ClearRect 0 0 width height) ;;;
  on_context context (SetFillStyle (if inversive then "white" else "black")) ;;;
  let totalChunks := Math_ceil (drawHeight /' inject_Z chunkSize) in
  processChunk
    (mkClosure context height inversive spacing alpha filePath scaleFactor
               drawWidth drawHeight offsetX offsetY data totalChunks) 0.

(** One animation frame: the callbacks queued when the frame starts run in
    the order they were requested; what they request is for the next frame. *)
Fixpoint run_callbacks (cbs : list (Closure * Z)) : M unit :=
  match cbs with
  | [] => ret tt
  | (e, chunkIndex) :: rest => processChunk e chunkIndex ;;; run_callbacks rest
  end.

Definition animationFrame : M unit := fun w =>
  run_callbacks (frames w)
    (mkWorld (randoms w) (surface w) (sent w) [] (samples w)).

Fixpoint animate (n : nat) : M unit :=
  match n with
  | O => ret tt
  | S n' => animationFrame ;;; animate n'
  end.

End Run.

Definition blank : World := mkWorld 0 [] [] [] [].

(** A picture of one colour, however it is scaled. *)
Definition solid (w h : Z) (r g b : Z) : Image :=
  mkImage w h (fun dw dh =>
    List.concat (List.repeat [r; g; b; 255] (Z.to_nat (Qfloor dw * Qfloor dh)))).

End Engine.

(* ================================================================== *)
(** * App.tsx: the Painter component *)
(* ================================================================== *)

Module Painter.

Import JS.
Local Open Scope string_scope.

Record File : Type := mkFile {
  file_id : nat;             (* identity of the File object *)
  decoded : Engine.Image
}.

(** The [img.onload] handler [updateCanvas] installs: a call of
    [processImage] waiting for the picture to load. *)
Record LoadTask : Type := mkLoadTask {
  load_context : nat;
  load_img : Engine.Image;
  load_width : Q;
  load_height : Q;
  load_inversive : bool;
  load_spacing : Z;
  load_alpha : Z;
  load_filePath : option string
}.

Record State : Type := mkState {
  imageFile : option File;
  inversive : bool;
  spacing : Z;
  alpha : Z;
  savePath : option string;     (* null and undefined are not told apart *)
  width : Q;
  height : Q;
  scaleFactor : Z;
  canvasRef : option nat;       (* canvasRef.current *)
  canvases : nat;               (* canvas elements mounted so far *)
  loading : list LoadTask;      (* pictures still loading, oldest first *)
  world : Engine.World
}.

Inductive Event : Type :=
| Upload (f : File)                       (* handleImageUpload *)
| ToggleInversive
| SetSpacing (v : Z)
| SetAlpha (v : Z)
| SetScaleFactor (v : Z)
| Clear                                   (* handleClear *)
| SaveClick                               (* handleSave *)
| StartSaving (path : option string)      (* 'start-saving' from the main process *)
| Resize (innerWidth innerHeight : Z)     (* handleResize *)
| ImageLoaded                             (* the oldest pending onload fires *)
| AnimationFrame.

(** The events that change what a run depends on: the image, the inversion
    flag, the spacing, the threshold, the viewport size. *)
Definition is_config_change (ev : Event) : bool :=
  match ev with
  | Upload _ | ToggleInversive | SetSpacing _ | SetAlpha _ | Resize _ _ => true
  | _ => false
  end.

Definition with_world (s : State) (w : Engine.World) : State :=
  mkState (imageFile s) (inversive s) (spacing s) (alpha s) (savePath s)
          (width s) (height s) (scaleFactor s) (canvasRef s) (canvases s)
          (loading s) w.

Definition with_loading (s : State) (l : list LoadTask) : State :=
  mkState (imageFile s) (inversive s) (spacing s) (alpha s) (savePath s)
          (width s) (height s) (scaleFactor s) (canvasRef s) (canvases s)
          l (world s).

Definition with_savePath (s : State) (p : option string) : State :=
  mkState (imageFile s) (inversive s) (spacing s) (alpha s) p
          (width s) (height s) (scaleFactor s) (canvasRef s) (canvases s)
          (loading s) (world s).

Definition draw (ctx : nat) (op : Engine.CanvasOp) (s : State) : State :=
  with_world s
    (Engine.mkWorld (Engine.randoms (world s))
       (Engine.surface (world s) ++ [(ctx, op)])%list
       (Engine.sent (world s)) (Engine.frames (world s))
       (Engine.samples (world s))).

Definition send (m : Engine.IpcMessage) (s : State) : State :=
  with_world s
    (Engine.mkWorld (Engine.randoms (world s)) (Engine.surface (world s))
       (Engine.sent (world s) ++ [m])%list (Engine.frames (world s))
       (Engine.samples (world s))).

(** [updateCanvas(filePath)], reading the state of the current render. *)
Definition updateCanvas (filePath : option string) (s : State) : State :=
  match canvasRef s with
  | None => s
  | Some canvas =>
      let s1 := draw canvas (Engine.SetSize (width s) (height s)) s in
      match imageFile s with
      | Some f =>
          with_loading s1
            (loading s1 ++
               [mkLoadTask canvas (decoded f) (width s) (height s)
                  (inversive s) (spacing s) (alpha s) filePath])%list
      | None => s1
      end
  end.

Definition same_file (a b : option File) : bool :=
  match a, b with
  | Some f, Some g => Nat.eqb (file_id f) (file_id g)
  | None, None => true
  | _, _ => false
  end.

Definition same_path (a b : option string) : bool :=
  match a, b with
  | Some p, Some q => String.eqb p q
  | None, None => true
  | _, _ => false
  end.

(** The dependency array [[imageFile, inversive, spacing, alpha, width,
    height]] of the effect that calls [updateCanvas()]. *)
Definition deps_changed (old new : State) : bool :=
  negb (same_file (imageFile old) (imageFile new)
        && Bool.eqb (inversive old) (inversive new)
        && (spacing old =? spacing new)%Z
        && (alpha old =? alpha new)%Z
        && Qeq_bool (width old) (width new)
        && Qeq_bool (height old) (height new)).

(** The canvas element exists exactly while an image is set. *)
Definition remount (s : State) : State :=
  match imageFile s, canvasRef s with
  | Some _, None =>
      mkState (imageFile s) (inversive s) (spacing s) (alpha s) (savePath s)
              (width s) (height s) (scaleFactor s) (Some (canvases s))
              (S (canvases s)) (loading s) (world s)
  | None, Some _ =>
      mkState (imageFile s) (inversive s) (spacing s) (alpha s) (savePath s)
              (width s) (height s) (scaleFactor s) None
              (canvases s) (loading s) (world s)
  | _, _ => s
  end.

(** Re-render after an event handler changed the state from [old] to [new]:
    the effects whose dependencies changed run in source order.  The
    [setSavePath(null)] of the first effect causes one more render, in which
    that effect runs again with the null path. *)
Definition commit (old new : State) : State :=
  let path_changed := negb (same_path (savePath old) (savePath new)) in
  let s := remount new in
  let s :=
    if path_changed then
      let s := send Engine.ClearFile s in
      if truthy (savePath new) then updateCanvas (savePath new) s else s
    else s in
  let s := if deps_changed old new then updateCanvas None s else s in
  if path_changed && truthy (savePath new)
  then send Engine.ClearFile (with_savePath s None)
  else s.

(** The first render and its effects, for a window of the given inner size. *)
Definition mount (innerWidth innerHeight : Z) : State :=
  send Engine.ClearFile
    (mkState None false 8 128 None
       (inject_Z innerWidth)
       (inject_Z innerHeight -' inject_Z innerHeight *' binary64 (3 # 10))
       1 None 0 [] Engine.blank).

Definition handleClear (s : State) : State :=
  let s1 :=
    match canvasRef s with
    | Some canvas => draw canvas (Engine.ClearRect 0 0 (width s) (height s)) s
    | None => s
    end in
  commit s
    (mkState None (inversive s1) (spacing s1) (alpha s1) (savePath s1)
       (width s1) (height s1) (scaleFactor s1) (canvasRef s1) (canvases s1)
       (loading s1) (world s1)).

(** [canvas.width] and [canvas.height] hold integers: what is assigned is
    truncated, and the truncated values are what [setWidth]/[setHeight] get. *)
Definition handleResize (innerWidth innerHeight : Z) (s : State) : State :=
  match canvasRef s with
  | Some canvas =>
      let w := inject_Z innerWidth in
      let h := inject_Z (Qfloor (inject_Z innerHeight * (8 # 10))) in
      let s1 := draw canvas (Engine.SetSize w h) s in
      commit s
        (mkState (imageFile s1) (inversive s1) (spacing s1) (alpha s1)
           (savePath s1) w h (scaleFactor s1) (canvasRef s1) (canvases s1)
           (loading s1) (world s1))
  | None => s
  end.

Section Run.

Variable random : nat -> Q.
Variables Math_cos Math_sin : Q -> Q.
Variable Number_toString : Q -> string.

(** [useCallback(..., [])] keeps the function the first render created, and
    that function's scope holds the first render's [scaleFactor]: the
    initial state [1]. *)
Definition initial_scaleFactor : Z := 1.

Definition processImage :=
  Engine.processImage random Math_cos Math_sin Number_toString
    (inject_Z initial_scaleFactor).

Definition step (ev : Event) (s : State) : option State :=
  match ev with
  | Upload f =>
      Some (commit s
        (mkState (Some f) (inversive s) (spacing s) (alpha s) (savePath s)
           (width s) (height s) (scaleFactor s) (canvasRef s) (canvases s)
           (loading s) (world s)))
  | ToggleInversive =>
      Some (commit s
        (mkState (imageFile s) (negb (inversive s)) (spacing s) (alpha s)
           (savePath s) (width s) (height s) (scaleFactor s) (canvasRef s)
           (canvases s) (loading s) (world s)))
  | SetSpacing v =>
      Some (commit s
        (mkState (imageFile s) (inversive s) v (alpha s) (savePath s)
           (width s) (height s) (scaleFactor s) (canvasRef s) (canvases s)
           (loading s) (world s)))
  | SetAlpha v =>
      Some (commit s
        (mkState (imageFile s) (inversive s) (spacing s) v (savePath s)
           (width s) (height s) (scaleFactor s) (canvasRef s) (canvases s)
           (loading s) (world s)))
  | SetScaleFactor v =>
      Some (commit s
        (mkState (imageFile s) (inversive s) (spacing s) (alpha s)
           (savePath s) (width s) (height s) v (canvasRef s) (canvases s)
           (loading s) (world s)))
  | Clear => Some (handleClear s)
  | SaveClick =>
      Some (match imageFile s with
            | Some _ => send Engine.Save s
            | None => s
            end)
  | StartSaving path => Some (commit s (with_savePath s path))
  | Resize innerWidth innerHeight => Some (handleResize innerWidth innerHeight s)
  | ImageLoaded =>
      match loading s with
      | [] => Some s
      | t :: rest =>
          match processImage (load_context t) (load_img t) (load_width t)
                  (load_height t) (load_inversive t) (load_spacing t)
                  (load_alpha t) (load_filePath t) (world s) with
          | Some (_, w) => Some (with_world (with_loading s rest) w)
          | None => None
          end
      end
  | AnimationFrame =>
      match Engine.animationFrame random Math_cos Math_sin Number_toString
              (world s) with
      | Some (_, w) => Some (with_world s w)
      | None => None
      end
  end.

Fixpoint steps (evs : list Event) (s : State) : option State :=
  match evs with
  | [] => Some s
  | ev :: rest =>
      match step ev s with
      | Some s' => steps rest s'
      | None => None
      end
  end.

End Run.

End Painter.

(* ================================================================== *)
(** * The sampling grid and the effect of a run, as plain lists *)
(* ================================================================== *)

Module Grid.

Import JS Engine.
Local Open Scope string_scope.

(** [start, start + step, ...] below [stop]. *)
Fixpoint lattice_from (n : nat) (start step : Z) : list Z :=
  match n with
  | O => []
  | S n' => start :: lattice_from n' (start + step) step
  end.

Definition lattice_count (start : Z) (stop : Q) (step : Z) : nat :=
  Z.to_nat ((Qceiling stop - start + step - 1) / step).

Definition lattice (start : Z) (stop : Q) (step : Z) : list Z :=
  lattice_from (lattice_count start stop step) start step.

(** Rows of band [k], columns, and the grid points of a band in the order
    the two loops reach them. *)
Definition band_rows (e : Closure) (k : Z) : list Z :=
  lattice (k * chunkSize)
    (Math_min (inject_Z (k * chunkSize + chunkSize)) (drawHeight e)) (spacing e).

Definition columns (e : Closure) : list Z := lattice 0 (drawWidth e) (spacing e).

Definition row_points (e : Closure) (y : Z) : list (Z * Z) :=
  map (fun x => (x, y)) (columns e).

Definition band_points (e : Closure) (k : Z) : list (Z * Z) :=
  flat_map (row_points e) (band_rows e k).

(** The bands of a run: [processChunk(0)] always runs, and those up to
    [totalChunks - 1] follow it. *)
Definition band_indices (e : Closure) : list Z :=
  map Z.of_nat (seq 0 (S (Z.to_nat (totalChunks e - 1)))).

Definition rows (e : Closure) : list Z := flat_map (band_rows e) (band_indices e).

Definition in_band (k : Z) (s : Sample) : bool :=
  ((k * chunkSize <=? at_y s) && (at_y s <? k * chunkSize + chunkSize))%Z.

Definition point_of (s : Sample) : Z * Z := (at_x s, at_y s).

Definition is_accepted (s : Sample) : bool :=
  match outcome s with Some _ => true | None => false end.

Definition line_of (s : Sample) : list string :=
  match outcome s with
  | Some (_, _, l) => [l]
  | None => []
  end.

Definition lines (ss : list Sample) : list string := flat_map line_of ss.

(** The canvas calls made for one sample. *)
Definition strokes (ctx : nat) (s : Sample) : list (nat * CanvasOp) :=
  match outcome s with
  | Some (cx, cy, _) =>
      [(ctx, SetFillStyle "black"); (ctx, BeginPath);
       (ctx, Arc cx cy 2 0 (Math_PI *' 2)); (ctx, Fill)]
  | None => []
  end.

(** Calls of [Math.random()] made for the samples [ss]. *)
Definition consumed (ss : list Sample) : nat := (2 * List.length (lines ss))%nat.

(** The text of a 'save-chunk' message. *)
Definition chunk_text (ss : list Sample) : string :=
  join (String "010" "") (lines ss) ++ String "010" "".

Definition chunk_messages (e : Closure) (bands : list (list Sample))
  : list IpcMessage :=
  if truthy (filePath e)
  then map (fun ss => SaveChunk (match filePath e with Some p => p | None => "" end)
                                (chunk_text ss)) bands
  else [].

(** Iteration of a loop body over the values a loop takes. *)
Fixpoint foldM {T A} (body : T -> A -> M A) (l : list T) (acc : A) : M A :=
  match l with
  | [] => ret acc
  | v :: l' => bind (body v acc) (fun acc' => foldM body l' acc')
  end.

Section Run.

Variable random : nat -> Q.
Variables Math_cos Math_sin : Q -> Q.
Variable Number_toString : Q -> string.

(** The dot of an accepted sample at [(x, y)] when [Math.random()] returns
    [r1] and then [r2]: its centre and its exported line. *)
Definition dot (e : Closure) (x y : Z) (r1 r2 : Q) : Q * Q * string :=
  let radius := inject_Z (spacing e) /' 2 in
  let randomAngle := r1 *' Math_PI *' 2 in
  let randomRadius := r2 *' radius in
  let canvasX := offsetX e +' inject_Z x +' randomRadius *' Math_cos randomAngle in
  let canvasY := offsetY e +' inject_Z y +' randomRadius *' Math_sin randomAngle in
  let scaledX := inject_Z (Math_round (canvasX /' scaleFactor e *' 100)) /' 100 in
  let scaledY :=
    inject_Z (Math_round ((height e -' canvasY) /' scaleFactor e *' 100)) /' 100 in
  (canvasX, canvasY, position_line Number_toString scaledX scaledY).

(** The samples taken at the points [pts], the first random number used
    being the [n]-th. *)
Fixpoint visit (e : Closure) (pts : list (Z * Z)) (n : nat) : list Sample :=
  match pts with
  | [] => []
  | (x, y) :: rest =>
      if accepted e x y
      then mkSample x y (Some (dot e x y (random n) (random (S n))))
             :: visit e rest (S (S n))
      else mkSample x y None :: visit e rest n
  end.

(** The samples of bands [k .. k + m], band by band. *)
Fixpoint bands_from (e : Closure) (k : Z) (m : nat) (n : nat)
  : list (list Sample) :=
  let ss := visit e (band_points e k) n in
  ss :: match m with
        | O => []
        | S m' => bands_from e (k + 1) m' (n + consumed ss)
        end.

(** A whole run: band 0, then one animation frame per further band. *)
Definition render (e : Closure) : M unit :=
  bind (processChunk random Math_cos Math_sin Number_toString e 0)
       (fun _ => animate random Math_cos Math_sin Number_toString
                   (Z.to_nat (totalChunks e - 1))).

Definition bands (e : Closure) (n : nat) : list (list Sample) :=
  bands_from e 0 (Z.to_nat (totalChunks e - 1)) n.

End Run.

(** The world after the samples [ss] were taken on context [ctx]. *)
Definition after_samples (ctx : nat) (ss : list Sample) (w : World) : World :=
  mkWorld (randoms w + consumed ss) (surface w ++ flat_map (strokes ctx) ss)
          (sent w) (frames w) (samples w ++ ss).

(** The closure [processImage] builds. *)
Definition closure_of (scaleFactor : Q) (context : nat) (img : Image)
    (width height : Q) (inversive : bool) (spacing alpha : Z)
    (filePath : option string) : Closure :=
  let aspectRatio := inject_Z (img_width img) /' inject_Z (img_height img) in
  let drawWidth := if Qltb 1 aspectRatio then width else height *' aspectRatio in
  let drawHeight := if Qltb 1 aspectRatio then width /' aspectRatio else height in
  mkClosure context height inversive spacing alpha filePath scaleFactor
    drawWidth drawHeight ((width -' drawWidth) /' 2) ((height -' drawHeight) /' 2)
    (raster img drawWidth drawHeight)
    (Math_ceil (drawHeight /' inject_Z chunkSize)).

(** The world when [processImage] reaches [processChunk(0)]: the picture
    was drawn, read back and wiped. *)
Definition prepare (e : Closure) (img : Image) (width : Q) (w : World) : World :=
  mkWorld (randoms w)
    (surface w ++
       [(context e, ClearRect 0 0 width (height e));
        (context e, DrawImage img (offsetX e) (offsetY e) (drawWidth e) (drawHeight e));
        (context e, ClearRect 0 0 width (height e));
        (context e, SetFillStyle (if inversive e then "white" else "black"))])
    (sent w) (frames w) (samples w).

Definition shape (s : Sample) : (Z * Z) * bool := (point_of s, is_accepted s).

(** Where a grid point is and whether it is accepted does not involve the
    jitter. *)
Definition decided (e : Closure) (p : Z * Z) : (Z * Z) * bool :=
  (p, accepted e (fst p) (snd p)).

(** [processImage] and the animation frames its bands take. *)
Definition run_image (random : nat -> Q) (Math_cos Math_sin : Q -> Q)
    (Number_toString : Q -> string) (scaleFactor : Q) (context : nat)
    (img : Image) (width height : Q) (inversive : bool) (spacing alpha : Z)
    (filePath : option string) : M unit :=
  bind (processImage random Math_cos Math_sin Number_toString scaleFactor
          context img width height inversive spacing alpha filePath)
       (fun _ => animate random Math_cos Math_sin Number_toString
          (Z.to_nat (totalChunks (closure_of scaleFactor context img width height
                                     inversive spacing alpha filePath) - 1))).

(** [Math.round(v * 100)]: [v] counted in hundredths. *)
Definition hundredths (v : Q) : Z := Math_round (v *' 100).

(** [v] to two decimal places with a comma: sign, integer digits, comma,
    two digits. *)
Definition two_decimals_comma (v : Q) : string :=
  let n := hundredths v in
  (if (n <? 0)%Z then "-" else "")
  ++ digits (Z.abs n / 100) ++ ","
  ++ String (digit (Z.abs n / 10 mod 10)) (String (digit (Z.abs n mod 10)) "").

End Grid.

(* ================================================================== *)
(** * Concrete pictures and runs *)
(* ================================================================== *)

Module Scenario.

Import JS Engine Grid.
Local Open Scope string_scope.

Definition nl : string := String "010" "".

(** A jitter source that always returns 0, and stand-ins for the
    trigonometric functions and for [Number::toString]. *)
Definition no_jitter : nat -> Q := fun _ => 0%Q.
Definition unit_cos : Q -> Q := fun _ => 1%Q.
Definition zero_sin : Q -> Q := fun _ => 0%Q.
Definition exponent_form : Q -> string := fun _ => "1e+21".

Definition black10 : Image := solid 10 10 0 0 0.
Definition white10 : Image := solid 10 10 255 255 255.

(** An 8 by 200 white strip: fitted into an 8 by 200 viewport it is sampled
    in two bands. *)
Definition strip : Image := solid 8 200 255 255 255.

(** The 10 by 10 example of the specification: threshold 128, spacing 10,
    not inverted, viewport 10 by 10, scale factor 1, exporting. *)
Definition example_run (img : Image) : option (unit * World) :=
  run_image no_jitter unit_cos zero_sin exponent_form 1 0%nat img 10 10 false 10 128
    (Some "points.txt") blank.

(** The strip in an 8 by 200 viewport at the default spacing 8. *)
Definition strip_run : option (unit * World) :=
  run_image no_jitter unit_cos zero_sin exponent_form 1 0%nat strip 8 200 false 8 128
    (Some "points.txt") blank.

Definition sent_by (r : option (unit * World)) : list IpcMessage :=
  match r with Some (_, w) => sent w | None => [] end.

Definition accepted_by (r : option (unit * World)) : list (Z * Z) :=
  match r with
  | Some (_, w) => map point_of (filter is_accepted (samples w))
  | None => []
  end.

Definition rows_sampled_by (r : option (unit * World)) : list Z :=
  match r with Some (_, w) => map at_y (samples w) | None => [] end.

(** The classifier on gray pixels (v, v, v) with integer threshold t, both
    in 0..255, compared with the test v > t on the integers. *)
Definition bytes : list Z := map Z.of_nat (seq 0 256).

Definition gray_agrees (v t : Z) : bool :=
  Bool.eqb
    (PrimFloat.eqb
       (Utils.getGrayscaleValue (number_of_Z t) (number_of_Z v) (number_of_Z v)
          (number_of_Z v))
       255)
    (t <? v)%Z.

Definition gray_table : bool :=
  forallb (fun v => forallb (gray_agrees v) bytes) bytes.

(** ** The component driven by events *)

Definition drive (evs : list Painter.Event) (s : Painter.State)
  : option Painter.State :=
  Painter.steps no_jitter unit_cos zero_sin exponent_form evs s.

Definition or_else (o : option Painter.State) (d : Painter.State) : Painter.State :=
  match o with Some s => s | None => d end.

Definition white_file : Painter.File := Painter.mkFile 0 white10.
Definition strip_file : Painter.File := Painter.mkFile 0 strip.

(** A 10 by 13 window gives, once the canvas exists and a resize was
    handled, the 10 by 10 viewport of the example. *)
Definition example_ready : list Painter.Event :=
  [Painter.Upload white_file; Painter.Resize 10 13; Painter.SetSpacing 10;
   Painter.ImageLoaded; Painter.ImageLoaded; Painter.ImageLoaded].

Definition export : list Painter.Event :=
  [Painter.StartSaving (Some "points.txt"); Painter.ImageLoaded].

Definition chunks_of (o : option Painter.State) : list string :=
  match o with
  | Some s =>
      flat_map (fun m => match m with SaveChunk _ text => [text] | _ => [] end)
               (sent (Painter.world s))
  | None => []
  end.

(** The example rendered, and then its scale factor or its spacing changed. *)
Definition ready : Painter.State :=
  or_else (drive example_ready (Painter.mount 10 13)) (Painter.mount 10 13).

Definition rescaled : Painter.State :=
  or_else (drive [Painter.SetScaleFactor 2] ready) ready.

Definition respaced : Painter.State :=
  or_else (drive [Painter.SetSpacing 12] ready) ready.

(** An 8 by 250 window: the viewport is 8 by 175 and the strip is fitted to
    7 by 175, two bands.  The state below is an exporting run that has done
    band 0 and has band 1 scheduled. *)
Definition exporting : Painter.State :=
  or_else
    (drive [Painter.Upload strip_file; Painter.ImageLoaded; Painter.AnimationFrame;
            Painter.StartSaving (Some "points.txt"); Painter.ImageLoaded]
       (Painter.mount 8 250))
    (Painter.mount 8 250).

Definition exporting_closure : Closure :=
  match frames (Painter.world exporting) with
  | (e, _) :: _ => e
  | [] => closure_of 1 0%nat strip 8 175 false 8 128 (Some "points.txt")
  end.

(** The spacing is changed under that run, and the picture loads again. *)
Definition superseded : Painter.State :=
  or_else (drive [Painter.SetSpacing 10; Painter.ImageLoaded] exporting) exporting.

Definition pending (s : Painter.State) : list (Z * Z) :=
  map (fun cb => (spacing (fst cb), snd cb)) (frames (Painter.world s)).

Definition arcs (w : World) : nat :=
  List.length (filter (fun op => match snd op with Arc _ _ _ _ _ => true | _ => false end)
                 (surface w)).

(** What the oldest scheduled callback draws and sends when it runs in the
    state [s]: number of dots, and messages. *)
Definition oldest_callback_effect (s : Painter.State)
  : option (nat * list IpcMessage) :=
  match frames (Painter.world s) with
  | (e, k) :: _ =>
      match processChunk no_jitter unit_cos zero_sin exponent_form e k
              (Painter.world s) with
      | Some (_, w') =>
          Some ((arcs w' - arcs (Painter.world s))%nat,
                skipn (List.length (sent (Painter.world s))) (sent w'))
      | None => None
      end
  | [] => None
  end.

End Scenario.

(* ================================================================== *)
(** * States the component can be in *)
(* ================================================================== *)

Module Reach.

Import JS Engine Painter.

(** The state with the [scaleFactor] state variable put back to its
    initial value. *)
Definition forget_scale (s : State) : State :=
  mkState (imageFile s) (Painter.inversive s) (Painter.spacing s)
          (Painter.alpha s) (savePath s) (width s) (Painter.height s)
          initial_scaleFactor (canvasRef s) (canvases s) (loading s) (world s).

(** The canvas element exists exactly while an image is set, and no save
    path is left in the state. *)
Definition settled (s : State) : Prop :=
  (imageFile s = None <-> canvasRef s = None) /\ truthy (savePath s) = false.

(** A scheduled band steps by a positive spacing and divides by the scale
    factor of the first render. *)
Definition callback_ok (cb : Closure * Z) : Prop :=
  0 < Engine.spacing (fst cb) /\ Engine.scaleFactor (fst cb) = 1%Q.

Definition sound (s : State) : Prop :=
  0 < Painter.spacing s
  /\ Forall (fun t => 0 < load_spacing t) (loading s)
  /\ Forall callback_ok (frames (world s)).

(** Events whose spacing, if they set one, is positive, as the slider's
    range 2 to 30 makes it. *)
Definition positive_spacing (ev : Event) : Prop :=
  match ev with
  | SetSpacing v => 0 < v
  | _ => True
  end.

Definition is_upload (ev : Event) : bool :=
  match ev with Upload _ => true | _ => false end.

Definition is_clear_file (m : IpcMessage) : bool :=
  match m with ClearFile => true | _ => false end.

(** Nothing has been drawn or started: no image and no canvas, no picture
    loading, no band scheduled, no random number used, nothing sent but
    clear-file messages, and the viewport of the first render. *)
Definition idle (innerWidth innerHeight : Z) (s : State) : Prop :=
  imageFile s = None
  /\ canvasRef s = None
  /\ loading s = []
  /\ surface (world s) = []
  /\ frames (world s) = []
  /\ randoms (world s) = randoms blank
  /\ forallb is_clear_file (sent (world s)) = true
  /\ width s = inject_Z innerWidth
  /\ Painter.height s
     = inject_Z innerHeight -' inject_Z innerHeight *' binary64 (3 # 10).

End Reach.

(* ================================================================== *)
(** * Facts about the loops *)
(* ================================================================== *)

Section LoopFacts.

Import JS Engine Grid.

Lemma Qltb_lt (x y : Q) : Qltb x y = true <-> (x < y)%Q.
Proof.
  unfold Qltb. rewrite negb_true_iff.
  split; intro H.
  - apply Qnot_le_lt. intro Hle. apply Qle_bool_iff in Hle. congruence.
  - destruct (Qle_bool y x) eqn:E; [|reflexivity].
    apply Qle_bool_iff in E. exfalso. exact (Qlt_not_le _ _ H E).
Qed.

Lemma Qltb_ceiling (v : Z) (stop : Q) :
  Qltb (inject_Z v) stop = true <-> v < Qceiling stop.
Proof.
  rewrite Qltb_lt. split; intro H.
  - rewrite Zlt_Qlt. eapply Qlt_le_trans; [exact H | apply Qle_ceiling].
  - assert (Hz : v <= Qceiling stop - 1) by lia.
    rewrite Zle_Qle in Hz.
    eapply Qle_lt_trans; [exact Hz | apply Qceiling_lt].
Qed.

Lemma lattice_cons (v : Z) (stop : Q) (step : Z) :
  0 < step -> v < Qceiling stop ->
  lattice v stop step = v :: lattice (v + step) stop step.
Proof.
  intros Hs Hv. unfold lattice, lattice_count.
  replace (Qceiling stop - v + step - 1)
    with ((Qceiling stop - (v + step) + step - 1) + 1 * step) by lia.
  rewrite Z.div_add by lia.
  replace (Qceiling stop - (v + step) + step - 1) with (Qceiling stop - v - 1) by lia.
  assert (0 <= (Qceiling stop - v - 1) / step) by (apply Z.div_pos; lia).
  rewrite Z2Nat.inj_add by lia. rewrite Nat.add_1_r. reflexivity.
Qed.

Lemma lattice_nil (v : Z) (stop : Q) (step : Z) :
  0 < step -> Qceiling stop <= v -> lattice v stop step = [].
Proof.
  intros Hs Hv. unfold lattice, lattice_count.
  assert ((Qceiling stop - v + step - 1) / step < 1)
    by (apply Z.div_lt_upper_bound; lia).
  replace (Z.to_nat ((Qceiling stop - v + step - 1) / step)) with 0%nat by lia.
  reflexivity.
Qed.

Lemma for_steps_lattice {A} (body : Z -> A -> M A) (stop : Q) (step : Z) :
  0 < step ->
  forall fuel v acc w,
    Z.max 0 (Qceiling stop - v) < Z.of_nat fuel ->
    for_steps fuel v stop step body acc w = foldM body (lattice v stop step) acc w.
Proof.
  intros Hs. induction fuel as [|f IH]; intros v acc w Hf.
  - lia.
  - cbn [for_steps].
    destruct (Qltb (inject_Z v) stop) eqn:E.
    + apply Qltb_ceiling in E.
      rewrite lattice_cons by assumption. cbn [foldM].
      unfold bind. destruct (body v acc w) as [[acc' w']|]; [|reflexivity].
      apply IH. lia.
    + assert (Qceiling stop <= v).
      { destruct (Z_lt_le_dec v (Qceiling stop)) as [Hlt|Hle]; [|exact Hle].
        apply Qltb_ceiling in Hlt. congruence. }
      rewrite lattice_nil by assumption. reflexivity.
Qed.

Lemma for_loop_lattice {A} (body : Z -> A -> M A) (start : Z) (stop : Q)
    (step : Z) (acc : A) (w : World) :
  0 < step ->
  for_loop start stop step body acc w = foldM body (lattice start stop step) acc w.
Proof.
  intro Hs. unfold for_loop. apply for_steps_lattice; [assumption | lia].
Qed.

End LoopFacts.

Section Rounding.

Import JS.

Lemma ilog2_spec (a : Z) (b : positive) :
  0 < a ->
  (0 <= ilog2 a b -> Zpos b * 2 ^ ilog2 a b <= a)
  /\ (ilog2 a b < 0 -> Zpos b <= a * 2 ^ (- ilog2 a b)).
Proof.
  intro Ha. unfold ilog2.
  pose proof (Z.log2_spec a Ha) as [Ha1 Ha2].
  pose proof (Z.log2_spec (Zpos b) (Pos2Z.is_pos b)) as [Hb1 Hb2].
  pose proof (Z.log2_nonneg a) as Hla.
  pose proof (Z.log2_nonneg (Zpos b)) as Hlb.
  set (la := Z.log2 a) in *. set (lb := Z.log2 (Zpos b)) in *.
  cbv zeta.
  destruct (if 0 <=? la - lb then Zpos b * 2 ^ (la - lb) <=? a
            else Zpos b <=? a * 2 ^ (- (la - lb))) eqn:E.
  - destruct (0 <=? la - lb) eqn:Ed.
    + apply Z.leb_le in E, Ed. split; [intros _; exact E | lia].
    + apply Z.leb_le in E. apply Z.leb_gt in Ed. split; [lia | intros _; exact E].
  - clear E. split; intro H.
    + assert (E : 2 ^ la = 2 ^ Z.succ lb * 2 ^ (la - lb - 1)).
      { rewrite <- Z.pow_add_r by lia. f_equal. lia. }
      assert (0 < 2 ^ (la - lb - 1)) by (apply Z.pow_pos_nonneg; lia).
      nia.
    + assert (E : 2 ^ Z.succ lb = 2 ^ la * 2 ^ (- (la - lb - 1))).
      { rewrite <- Z.pow_add_r by lia. f_equal. lia. }
      assert (0 < 2 ^ (- (la - lb - 1))) by (apply Z.pow_pos_nonneg; lia).
      nia.
Qed.

Lemma round_even_spec (n d : Z) :
  0 < d -> 2 * Z.abs (round_even n d * d - n) <= d.
Proof.
  intro Hd. unfold round_even.
  pose proof (Z.div_mod n d ltac:(lia)) as E.
  pose proof (Z.mod_pos_bound n d Hd) as Hr.
  set (f := n / d) in *. set (r := n mod d) in *.
  destruct (Z.compare_spec (2 * r) d) as [H|H|H].
  - destruct (Z.even f); nia.
  - nia.
  - nia.
Qed.

(** The scale [2 ^ e] of the rounding, and the bound on the error. *)
Lemma binary64_error (q : Q) :
  (Qabs (binary64 q - q) * inject_Z (2 ^ 53) <= Qabs q)%Q.
Proof.
  destruct q as [a b]. unfold binary64. cbn [Qnum Qden].
  destruct (Z.eqb_spec a 0) as [->|Ha]; [unfold Qle; cbn; lia|].
  cbv zeta.
  destruct (ilog2_spec (Z.abs a) b ltac:(lia)) as [Hp Hn].
  set (L := ilog2 (Z.abs a) b) in *.
  destruct (0 <=? L - 52) eqn:Ee.
  - apply Z.leb_le in Ee.
    assert (HP : 0 < 2 ^ (L - 52)) by (apply Z.pow_pos_nonneg; lia).
    assert (EL : 2 ^ L = 2 ^ (L - 52) * 2 ^ 52).
    { rewrite <- Z.pow_add_r by lia. f_equal. lia. }
    specialize (Hp ltac:(lia)).
    set (P := 2 ^ (L - 52)) in *.
    pose proof (round_even_spec a (Zpos b * P) ltac:(nia)) as Hr.
    set (n := round_even a (Zpos b * P)) in *.
    assert (E : (inject_Z (n * P) - (a # b) == (n * P * Zpos b - a) # b)%Q).
    { unfold Qeq, Qminus, Qplus, Qopp, inject_Z. cbn [Qnum Qden]. nia. }
    rewrite E. unfold Qabs, Qle, Qmult, inject_Z. cbn [Qnum Qden].
    change (2 ^ 53) with (2 * 2 ^ 52).
    rewrite Pos.mul_1_r.
    assert (Z.abs (n * P * Zpos b - a) * (2 * 2 ^ 52) <= Z.abs a).
    { replace (n * P * Zpos b - a) with (n * (Zpos b * P) - a) by ring.
      rewrite EL in Hp. nia. }
    nia.
  - apply Z.leb_gt in Ee.
    assert (HP : 0 < 2 ^ (- (L - 52))) by (apply Z.pow_pos_nonneg; lia).
    set (P := 2 ^ (- (L - 52))) in *.
    pose proof (round_even_spec (a * P) (Zpos b) ltac:(lia)) as Hr.
    set (n := round_even (a * P) (Zpos b)) in *.
    rewrite Qred_correct.
    assert (EP : Zpos (Z.to_pos P) = P) by (apply Z2Pos.id; exact HP).
    assert (E : ((n # Z.to_pos P) - (a # b) == (n * Zpos b - a * P) # (Z.to_pos P * b))%Q).
    { unfold Qeq, Qminus, Qplus, Qopp. cbn [Qnum Qden]. rewrite !Pos2Z.inj_mul, EP. ring. }
    rewrite E. unfold Qabs, Qle, Qmult, inject_Z. cbn [Qnum Qden].
    rewrite Pos.mul_1_r, Pos2Z.inj_mul, EP.
    change (2 ^ 53) with (2 * 2 ^ 52).
    assert (HA : Zpos b * 2 ^ 52 <= Z.abs a * P).
    { destruct (Z_le_gt_dec 0 L) as [HL|HL].
      - specialize (Hp HL).
        assert (EL : 2 ^ 52 = 2 ^ L * P).
        { subst P. rewrite <- Z.pow_add_r by lia. f_equal. lia. }
        rewrite EL. nia.
      - specialize (Hn ltac:(lia)).
        assert (EL : P = 2 ^ (- L) * 2 ^ 52).
        { subst P. rewrite <- Z.pow_add_r by lia. f_equal. lia. }
        rewrite EL. nia. }
    assert (Z.abs (n * Zpos b - a * P) * (2 * 2 ^ 52) <= Z.abs a * P) by nia.
    nia.
Qed.

Lemma binary64_near (q : Q) :
  (q - Qabs q * (1 # 9007199254740992) <= binary64 q
   <= q + Qabs q * (1 # 9007199254740992))%Q.
Proof.
  pose proof (binary64_error q) as H.
  change (inject_Z (2 ^ 53)) with 9007199254740992%Q in H.
  pose proof (Qle_Qabs (binary64 q - q)) as H1.
  pose proof (Qle_Qabs (- (binary64 q - q))) as H2.
  rewrite Qabs_opp in H2.
  set (d := Qabs (binary64 q - q)) in *. set (m := Qabs q) in *.
  set (r := binary64 q) in *.
  split; lra.
Qed.

Lemma binary64_pos (q : Q) : (0 < q)%Q -> (0 < binary64 q)%Q.
Proof.
  intro H. pose proof (binary64_near q) as [Hl _].
  rewrite (Qabs_pos q) in Hl by (apply Qlt_le_weak; exact H).
  set (r := binary64 q) in *. lra.
Qed.

Lemma binary64_neg (q : Q) : (q < 0)%Q -> (binary64 q < 0)%Q.
Proof.
  intro H. pose proof (binary64_near q) as [_ Hu].
  rewrite (Qabs_neg q) in Hu by (apply Qlt_le_weak; exact H).
  set (r := binary64 q) in *. lra.
Qed.

Lemma binary64_zero (q : Q) : (q == 0)%Q -> binary64 q = 0%Q.
Proof.
  intro H. unfold binary64.
  assert (E : Qnum q = 0) by (unfold Qeq in H; cbn in H; lia).
  rewrite E. reflexivity.
Qed.

Lemma Qfloor_unique (q : Q) (a : Z) :
  (inject_Z a <= q)%Q -> (q < inject_Z a + 1)%Q -> Qfloor q = a.
Proof.
  intros H1 H2.
  pose proof (Qfloor_le q) as F1. pose proof (Qlt_floor q) as F2.
  rewrite inject_Z_plus in F2. change (inject_Z 1) with 1%Q in F2.
  assert (A : (inject_Z a < inject_Z (Qfloor q) + 1)%Q) by lra.
  assert (B : (inject_Z (Qfloor q) < inject_Z a + 1)%Q) by lra.
  change 1%Q with (inject_Z 1) in A, B.
  rewrite <- inject_Z_plus, <- Zlt_Qlt in A, B. lia.
Qed.

End Rounding.

Section BandFacts.

Import JS Engine Grid.

Variable random : nat -> Q.
Variables Math_cos Math_sin : Q -> Q.
Variable Number_toString : Q -> string.

Local Abbreviation sample_point := (sample_point random Math_cos Math_sin Number_toString).
Local Abbreviation processChunk := (processChunk random Math_cos Math_sin Number_toString).
Local Abbreviation animate := (animate random Math_cos Math_sin Number_toString).
Local Abbreviation visit := (visit random Math_cos Math_sin Number_toString).
Local Abbreviation bands_from := (bands_from random Math_cos Math_sin Number_toString).

Lemma foldM_ext {T A} (f g : T -> A -> M A) (l : list T) :
  (forall v acc w, f v acc w = g v acc w) ->
  forall acc w, foldM f l acc w = foldM g l acc w.
Proof.
  intro H. induction l as [|v l IH]; intros acc w; cbn [foldM]; [reflexivity|].
  unfold bind. rewrite H. destruct (g v acc w) as [[a w']|]; auto.
Qed.

Lemma foldM_app {T A} (f : T -> A -> M A) (l1 l2 : list T) :
  forall acc w,
    foldM f (l1 ++ l2) acc w = bind (foldM f l1 acc) (fun a => foldM f l2 a) w.
Proof.
  induction l1 as [|v l1 IH]; intros acc w; cbn [foldM app].
  - reflexivity.
  - unfold bind. destruct (f v acc w) as [[a w']|]; [|reflexivity].
    rewrite IH. reflexivity.
Qed.

Lemma foldM_map {T U A} (g : T -> U) (f : U -> A -> M A) (l : list T) :
  forall acc w, foldM f (map g l) acc w = foldM (fun v => f (g v)) l acc w.
Proof.
  induction l as [|v l IH]; intros acc w; cbn [foldM map]; [reflexivity|].
  unfold bind. destruct (f (g v) acc w) as [[a w']|]; auto.
Qed.

Lemma foldM_flat_map {T U A} (g : T -> list U) (f : U -> A -> M A) (l : list T) :
  forall acc w,
    foldM (fun v a => foldM f (g v) a) l acc w = foldM f (flat_map g l) acc w.
Proof.
  induction l as [|v l IH]; intros acc w; cbn [foldM flat_map]; [reflexivity|].
  rewrite foldM_app. unfold bind.
  destruct (foldM f (g v) acc w) as [[a w']|]; auto.
Qed.

Lemma consumed_cons_accepted (s : Sample) (ss : list Sample) d :
  outcome s = Some d -> consumed (s :: ss) = S (S (consumed ss)).
Proof.
  intro H. unfold consumed, lines. cbn [flat_map]. unfold line_of at 1.
  rewrite H. destruct d as [[cx cy] l]. cbn [app List.length]. lia.
Qed.

Lemma consumed_cons_rejected (s : Sample) (ss : list Sample) :
  outcome s = None -> consumed (s :: ss) = consumed ss.
Proof.
  intro H. unfold consumed, lines. cbn [flat_map]. unfold line_of at 1.
  rewrite H. reflexivity.
Qed.

Lemma foldM_points (e : Closure) (pts : list (Z * Z)) :
  forall positions w,
    foldM (fun p acc => sample_point e (snd p) (fst p) acc) pts positions w
    = Some (positions ++ lines (visit e pts (randoms w)),
            after_samples (context e) (visit e pts (randoms w)) w).
Proof.
  induction pts as [|[x y] pts IH]; intros positions w.
  - cbn. unfold ret, after_samples, consumed. cbn.
    rewrite !app_nil_r, Nat.add_0_r. destruct w; reflexivity.
  - cbn [foldM visit fst snd]. unfold Engine.sample_point.
    destruct (accepted e x y) eqn:E.
    + unfold bind, Math_random, on_context, observe, ret. cbn [randoms surface sent frames samples].
      rewrite IH. cbn [randoms surface sent frames samples].
      unfold after_samples. cbn [randoms surface sent frames samples].
      erewrite consumed_cons_accepted by reflexivity.
      unfold lines, dot. cbn [flat_map].
      unfold line_of at 2, strokes at 2. cbn [outcome].
      rewrite <- !app_assoc. cbn [app].
      do 2 f_equal. f_equal. lia.
    + unfold bind, observe, ret. cbn [randoms surface sent frames samples].
      rewrite IH. cbn [randoms surface sent frames samples].
      unfold after_samples. cbn [randoms surface sent frames samples].
      rewrite consumed_cons_rejected by reflexivity.
      unfold lines. cbn [flat_map]. unfold line_of at 2, strokes at 2. cbn [outcome app].
      rewrite <- !app_assoc. reflexivity.
Qed.

Lemma processChunk_band (e : Closure) (k : Z) (w : World) :
  0 < spacing e ->
  processChunk e k w
  = Some (tt,
      mkWorld (randoms w + consumed (visit e (band_points e k) (randoms w)))
        (surface w ++ flat_map (strokes (context e))
                        (visit e (band_points e k) (randoms w)))
        (sent w ++ chunk_messages e [visit e (band_points e k) (randoms w)])
        (frames w ++ (if k <? totalChunks e - 1 then [(e, k + 1)] else []))
        (samples w ++ visit e (band_points e k) (randoms w))).
Proof.
  intro Hs. unfold Engine.processChunk. unfold bind at 1.
  rewrite for_loop_lattice by assumption.
  rewrite (foldM_ext _
    (fun y acc => foldM (fun p a => sample_point e (snd p) (fst p) a)
                    (row_points e y) acc)).
  2:{ intros y acc w0. rewrite for_loop_lattice by assumption.
      unfold row_points. rewrite foldM_map. reflexivity. }
  rewrite foldM_flat_map.
  fold (band_rows e k). fold (band_points e k).
  rewrite foldM_points. cbn [app].
  unfold chunk_messages, chunk_text, after_samples.
  destruct (truthy (filePath e));
    destruct (k <? totalChunks e - 1);
    unfold bind, sendMessage, requestAnimationFrame, ret;
    cbn [randoms surface sent frames samples map];
    rewrite ?app_nil_r; reflexivity.
Qed.

Lemma lines_app (a b : list Sample) : lines (a ++ b) = (lines a ++ lines b)%list.
Proof. unfold lines. apply flat_map_app. Qed.

Lemma consumed_app (a b : list Sample) :
  consumed (a ++ b) = (consumed a + consumed b)%nat.
Proof. unfold consumed. rewrite lines_app, length_app. lia. Qed.

Lemma chunk_messages_cons (e : Closure) (ss : list Sample) (B : list (list Sample)) :
  chunk_messages e (ss :: B) = (chunk_messages e [ss] ++ chunk_messages e B)%list.
Proof. unfold chunk_messages. destruct (truthy (filePath e)); reflexivity. Qed.

(** Band [k] and the [m] bands after it, one animation frame each. *)
Lemma run_from_band (e : Closure) :
  0 < spacing e ->
  forall m k w,
    frames w = [] ->
    Z.of_nat m = Z.max 0 (totalChunks e - 1 - k) ->
    bind (processChunk e k) (fun _ => animate m) w
    = Some (tt,
        mkWorld (randoms w + consumed (List.concat (bands_from e k m (randoms w))))
          (surface w ++ flat_map (strokes (context e))
                          (List.concat (bands_from e k m (randoms w))))
          (sent w ++ chunk_messages e (bands_from e k m (randoms w)))
          []
          (samples w ++ List.concat (bands_from e k m (randoms w)))).
Proof.
  intro Hs. induction m as [|m IH]; intros k w Hf Hm.
  - unfold bind. rewrite processChunk_band by assumption.
    assert (E : (k <? totalChunks e - 1) = false) by (apply Z.ltb_ge; lia).
    rewrite E, Hf. cbn [Engine.animate Grid.bands_from List.concat app].
    rewrite !app_nil_r. reflexivity.
  - unfold bind at 1. rewrite processChunk_band by assumption.
    assert (E : (k <? totalChunks e - 1) = true) by (apply Z.ltb_lt; lia).
    rewrite E, Hf. cbn [Engine.animate app].
    unfold bind at 1. unfold Engine.animationFrame.
    cbn [randoms surface sent frames samples Engine.run_callbacks].
    set (w1 := mkWorld _ _ _ [] _).
    specialize (IH (k + 1) w1 eq_refl ltac:(lia)).
    unfold bind in IH |- *.
    destruct (processChunk e (k + 1) w1) as [[[] w2]|]; [|discriminate IH].
    unfold ret. rewrite IH. subst w1.
    cbn [randoms surface sent frames samples Grid.bands_from List.concat].
    rewrite (chunk_messages_cons e _ (bands_from e (k + 1) m _)).
    rewrite consumed_app, flat_map_app, <- !app_assoc, Nat.add_assoc.
    reflexivity.
Qed.

(** The whole run. *)
Lemma render_bands (e : Closure) (w : World) :
  0 < spacing e ->
  frames w = [] ->
  render random Math_cos Math_sin Number_toString e w
  = Some (tt,
      mkWorld
        (randoms w
         + consumed (List.concat (bands random Math_cos Math_sin Number_toString e (randoms w))))
        (surface w ++ flat_map (strokes (context e))
           (List.concat (bands random Math_cos Math_sin Number_toString e (randoms w))))
        (sent w ++ chunk_messages e
           (bands random Math_cos Math_sin Number_toString e (randoms w)))
        []
        (samples w
         ++ List.concat (bands random Math_cos Math_sin Number_toString e (randoms w)))).
Proof.
  intros Hs Hf. unfold render, bands. apply run_from_band; [assumption..|lia].
Qed.

End BandFacts.

Section GridFacts.

Import JS Engine Grid.

Lemma lattice_from_In (n : nat) (start step y : Z) :
  In y (lattice_from n start step)
  <-> exists i, (i < n)%nat /\ y = start + Z.of_nat i * step.
Proof.
  revert start. induction n as [|n IH]; intro start; cbn [lattice_from In].
  - split; [tauto | intros (i & Hi & _); lia].
  - rewrite IH. split.
    + intros [<- | (i & Hi & ->)].
      * exists 0%nat. split; lia.
      * exists (S i). split; lia.
    + intros ([|i] & Hi & ->).
      * left. lia.
      * right. exists i. split; lia.
Qed.

Lemma lattice_count_lt (start : Z) (stop : Q) (step : Z) (i : nat) :
  0 < step ->
  (i < lattice_count start stop step)%nat
  <-> start + Z.of_nat i * step < Qceiling stop.
Proof.
  intro Hs. unfold lattice_count.
  set (a := Qceiling stop - start).
  replace (Qceiling stop - start + step - 1) with (a + step - 1) by (subst a; lia).
  assert (Hq := Z.div_mod (a + step - 1) step ltac:(lia)).
  assert (Hr := Z.mod_pos_bound (a + step - 1) step Hs).
  set (q := (a + step - 1) / step) in *.
  split; intro H.
  - assert (Z.of_nat i < q) by lia.
    assert (Z.of_nat i * step + step <= q * step) by nia.
    subst a. nia.
  - assert (Z.of_nat i < q) by (subst a; nia).
    lia.
Qed.

(** Membership in a lattice. *)
Lemma lattice_In (start : Z) (stop : Q) (step y : Z) :
  0 < step ->
  In y (lattice start stop step)
  <-> start <= y /\ (inject_Z y < stop)%Q /\ (step | y - start).
Proof.
  intro Hs. unfold lattice. rewrite lattice_from_In. split.
  - intros (i & Hi & ->). apply lattice_count_lt in Hi; [|assumption].
    split; [nia|]. split.
    + apply Qltb_lt, Qltb_ceiling. exact Hi.
    + exists (Z.of_nat i). lia.
  - intros (Hge & Hlt & (j & Hj)).
    assert (0 <= j) by nia.
    exists (Z.to_nat j). split.
    + apply lattice_count_lt; [assumption|].
      apply Qltb_lt, Qltb_ceiling in Hlt. rewrite Z2Nat.id by assumption. lia.
    + rewrite Z2Nat.id by assumption. lia.
Qed.

Lemma lattice_from_sorted (n : nat) (start step : Z) :
  0 < step -> StronglySorted Z.lt (lattice_from n start step).
Proof.
  intro Hs. revert start. induction n as [|n IH]; intro start; cbn [lattice_from].
  - constructor.
  - constructor; [apply IH|].
    apply Forall_forall. intros y Hy.
    apply lattice_from_In in Hy. destruct Hy as (i & _ & ->). nia.
Qed.

Lemma lattice_sorted (start : Z) (stop : Q) (step : Z) :
  0 < step -> StronglySorted Z.lt (lattice start stop step).
Proof. intro Hs. apply lattice_from_sorted. exact Hs. Qed.

Lemma Math_min_lt (x a b : Q) :
  (x < Math_min a b)%Q <-> (x < a)%Q /\ (x < b)%Q.
Proof.
  unfold Math_min. destruct (Qle_bool a b) eqn:E.
  - apply Qle_bool_iff in E. split; [|tauto].
    intro H. split; [exact H|]. eapply Qlt_le_trans; eassumption.
  - assert (Hba : (b < a)%Q).
    { apply Qnot_le_lt. intro Hle. apply Qle_bool_iff in Hle. congruence. }
    split; [|tauto]. intro H. split; [|exact H].
    eapply Qlt_trans; eassumption.
Qed.

(** Rows of band [k]: from the band's first pixel row in steps of [spacing],
    below the band's end and below [drawHeight]. *)
Lemma band_rows_In (e : Closure) (k y : Z) :
  0 < spacing e ->
  In y (band_rows e k)
  <-> k * chunkSize <= y < k * chunkSize + chunkSize
      /\ (inject_Z y < drawHeight e)%Q
      /\ (spacing e | y - k * chunkSize).
Proof.
  intro Hs. unfold band_rows. rewrite lattice_In by assumption.
  rewrite Math_min_lt. rewrite <- Zlt_Qlt. tauto.
Qed.

Lemma columns_In (e : Closure) (x : Z) :
  0 < spacing e ->
  In x (columns e) <-> 0 <= x /\ (inject_Z x < drawWidth e)%Q /\ (spacing e | x).
Proof.
  intro Hs. unfold columns. rewrite lattice_In by assumption.
  rewrite Z.sub_0_r. tauto.
Qed.

Lemma StronglySorted_app_lt (l1 l2 : list Z) :
  StronglySorted Z.lt l1 -> StronglySorted Z.lt l2 ->
  (forall a b, In a l1 -> In b l2 -> a < b) ->
  StronglySorted Z.lt (l1 ++ l2).
Proof.
  intros H1 H2 H. induction H1 as [|a l1 Hl1 IH Ha]; cbn [app]; [exact H2|].
  constructor.
  - apply IH. intros x y Hx Hy. apply H; [right; exact Hx | exact Hy].
  - apply Forall_app. split; [exact Ha|].
    apply Forall_forall. intros y Hy. apply H; [left; reflexivity | exact Hy].
Qed.

Lemma rows_from_sorted (e : Closure) :
  0 < spacing e ->
  forall n s,
    StronglySorted Z.lt (flat_map (band_rows e) (map Z.of_nat (seq s n)))
    /\ (forall y, In y (flat_map (band_rows e) (map Z.of_nat (seq s n))) ->
                  Z.of_nat s * chunkSize <= y).
Proof.
  intros Hs. induction n as [|n IH]; intro s; cbn [seq map flat_map].
  - split; [constructor | intros y []].
  - destruct (IH (S s)) as [IHs IHb]. split.
    + apply StronglySorted_app_lt; [apply lattice_sorted; exact Hs | exact IHs |].
      intros a b Ha Hb. apply band_rows_In in Ha; [|exact Hs].
      apply IHb in Hb. unfold chunkSize in *. lia.
    + intros y Hy. apply in_app_or in Hy. destruct Hy as [Hy|Hy].
      * apply band_rows_In in Hy; [|exact Hs]. lia.
      * apply IHb in Hy. unfold chunkSize in *. lia.
Qed.

(** The rows of a run, top to bottom, are strictly increasing. *)
Lemma rows_sorted (e : Closure) :
  0 < spacing e -> StronglySorted Z.lt (rows e).
Proof. intro Hs. apply (rows_from_sorted e Hs). Qed.

Lemma columns_sorted (e : Closure) :
  0 < spacing e -> StronglySorted Z.lt (columns e).
Proof. intro Hs. apply lattice_sorted. exact Hs. Qed.

Lemma flat_map_flat_map {A B C} (f : B -> list C) (g : A -> list B) (l : list A) :
  flat_map f (flat_map g l) = flat_map (fun a => flat_map f (g a)) l.
Proof.
  induction l as [|a l IH]; cbn [flat_map]; [reflexivity|].
  rewrite flat_map_app, IH. reflexivity.
Qed.

End GridFacts.

Section RunFacts.

Import JS Engine Grid.

Variable random : nat -> Q.
Variables Math_cos Math_sin : Q -> Q.
Variable Number_toString : Q -> string.

Local Abbreviation visit := (visit random Math_cos Math_sin Number_toString).
Local Abbreviation bands_from := (bands_from random Math_cos Math_sin Number_toString).
Local Abbreviation bands := (bands random Math_cos Math_sin Number_toString).

Lemma visit_points (e : Closure) (pts : list (Z * Z)) :
  forall n, map point_of (visit e pts n) = pts.
Proof.
  induction pts as [|[x y] pts IH]; intro n; cbn [Grid.visit map]; [reflexivity|].
  destruct (accepted e x y); cbn [map]; rewrite IH; reflexivity.
Qed.

Lemma visit_accepted (e : Closure) (pts : list (Z * Z)) :
  forall n s, In s (visit e pts n) ->
    is_accepted s = accepted e (at_x s) (at_y s).
Proof.
  induction pts as [|[x y] pts IH]; intros n s; cbn [Grid.visit]; [intros []|].
  destruct (accepted e x y) eqn:E; intros [<- | Hs]; eauto.
Qed.

Lemma visit_In_point (e : Closure) (pts : list (Z * Z)) (n : nat) (s : Sample) :
  In s (visit e pts n) -> In (point_of s) pts.
Proof.
  intro H. rewrite <- (visit_points e pts n). apply in_map. exact H.
Qed.

Lemma band_points_In (e : Closure) (k x y : Z) :
  In (x, y) (band_points e k) <-> In y (band_rows e k) /\ In x (columns e).
Proof.
  unfold band_points, row_points. rewrite in_flat_map. split.
  - intros (y' & Hy & Hx). apply in_map_iff in Hx.
    destruct Hx as (x' & Heq & Hx). inversion Heq; subst. tauto.
  - intros [Hy Hx]. exists y. split; [exact Hy|].
    apply in_map_iff. exists x. tauto.
Qed.

Lemma visit_band_in_band (e : Closure) (k : Z) (n : nat) (s : Sample) :
  0 < spacing e ->
  In s (visit e (band_points e k) n) -> in_band k s = true.
Proof.
  intros Hs H. apply visit_In_point in H. unfold point_of in H.
  apply band_points_In in H. destruct H as [Hy _].
  apply band_rows_In in Hy; [|exact Hs].
  unfold in_band. apply andb_true_iff. split; [apply Z.leb_le | apply Z.ltb_lt]; lia.
Qed.

Lemma in_band_unique (j k : Z) (s : Sample) :
  in_band j s = true -> j <> k -> in_band k s = false.
Proof.
  unfold in_band, chunkSize. intros H Hjk.
  apply andb_true_iff in H. destruct H as [H1 H2].
  apply Z.leb_le in H1. apply Z.ltb_lt in H2.
  apply andb_false_iff.
  destruct (Z_lt_le_dec k j); [right; apply Z.ltb_ge | left; apply Z.leb_gt]; lia.
Qed.

Lemma filter_all {A} (f : A -> bool) (l : list A) :
  (forall a, In a l -> f a = true) -> filter f l = l.
Proof.
  induction l as [|a l IH]; intro H; cbn [filter]; [reflexivity|].
  rewrite (H a (or_introl eq_refl)). f_equal. apply IH.
  intros b Hb. apply H. right. exact Hb.
Qed.

Lemma filter_none {A} (f : A -> bool) (l : list A) :
  (forall a, In a l -> f a = false) -> filter f l = [].
Proof.
  induction l as [|a l IH]; intro H; cbn [filter]; [reflexivity|].
  rewrite (H a (or_introl eq_refl)). apply IH.
  intros b Hb. apply H. right. exact Hb.
Qed.

Lemma bands_from_length (e : Closure) (m : nat) :
  forall k n, List.length (bands_from e k m n) = S m.
Proof.
  induction m as [|m IH]; intros k n; cbn [Grid.bands_from List.length]; [reflexivity|].
  rewrite IH. reflexivity.
Qed.

(** Selecting from all the samples of a run those whose row lies in the
    pixel rows of band [k] gives back what band [k] sampled. *)
Lemma bands_from_filter (e : Closure) (k : Z) :
  0 < spacing e ->
  forall m j n,
    (k < j -> filter (in_band k) (List.concat (bands_from e j m n)) = [])
    /\ (j <= k <= j + Z.of_nat m ->
        filter (in_band k) (List.concat (bands_from e j m n))
        = nth (Z.to_nat (k - j)) (bands_from e j m n) []).
Proof.
  intro Hs.
  assert (Hself : forall j n,
            filter (in_band j) (visit e (band_points e j) n)
            = visit e (band_points e j) n).
  { intros j n. apply filter_all. intros s Hin.
    eapply visit_band_in_band; eassumption. }
  assert (Hother : forall j n, j <> k ->
            filter (in_band k) (visit e (band_points e j) n) = []).
  { intros j n Hjk. apply filter_none. intros s Hin.
    eapply in_band_unique; [|exact Hjk].
    eapply visit_band_in_band; eassumption. }
  induction m as [|m IH]; intros j n.
  - cbn [Grid.bands_from List.concat]. rewrite app_nil_r. split; intro H.
    + apply Hother. lia.
    + replace k with j by lia. rewrite Z.sub_diag. cbn [Z.to_nat nth]. apply Hself.
  - cbn [Grid.bands_from List.concat]. rewrite filter_app.
    destruct (IH (j + 1) (n + consumed (visit e (band_points e j) n))%nat)
      as [IHlt IHin].
    split; intro H.
    + rewrite Hother by lia. rewrite IHlt by lia. reflexivity.
    + destruct (Z.eq_dec k j) as [->|Hne].
      * rewrite Hself, IHlt by lia. rewrite app_nil_r, Z.sub_diag. reflexivity.
      * rewrite Hother by lia. rewrite IHin by lia. cbn [app].
        replace (Z.to_nat (k - j)) with (S (Z.to_nat (k - (j + 1)))) by lia.
        reflexivity.
Qed.

Lemma bands_from_points (e : Closure) (m : nat) :
  forall s n,
    map point_of (List.concat (bands_from e (Z.of_nat s) m n))
    = flat_map (band_points e) (map Z.of_nat (seq s (S m))).
Proof.
  induction m as [|m IH]; intros s n.
  - cbn [Grid.bands_from List.concat seq map flat_map].
    rewrite !app_nil_r. apply visit_points.
  - cbn [Grid.bands_from List.concat]. rewrite map_app, visit_points.
    replace (Z.of_nat s + 1) with (Z.of_nat (S s)) by lia.
    rewrite IH. reflexivity.
Qed.

(** The grid points of a run in the order they are sampled: row after row,
    and along each row column after column. *)
Lemma bands_points (e : Closure) (n : nat) :
  map point_of (List.concat (bands e n)) = flat_map (row_points e) (rows e).
Proof.
  unfold Grid.bands, rows, band_indices.
  rewrite (bands_from_points e _ 0%nat n).
  rewrite flat_map_flat_map. reflexivity.
Qed.

Lemma bands_length (e : Closure) (n : nat) :
  List.length (bands e n) = S (Z.to_nat (totalChunks e - 1)).
Proof. apply bands_from_length. Qed.

Lemma bands_filter (e : Closure) (n : nat) (k : nat) :
  0 < spacing e ->
  (k < List.length (bands e n))%nat ->
  nth k (bands e n) [] = filter (in_band (Z.of_nat k)) (List.concat (bands e n)).
Proof.
  intros Hs Hk. rewrite bands_length in Hk. unfold Grid.bands.
  destruct (bands_from_filter e (Z.of_nat k) Hs (Z.to_nat (totalChunks e - 1)) 0 n)
    as [_ H].
  rewrite H by lia. rewrite Z.sub_0_r, Nat2Z.id. reflexivity.
Qed.

Lemma bands_accepted (e : Closure) (n : nat) (s : Sample) :
  In s (List.concat (bands e n)) ->
  is_accepted s = accepted e (at_x s) (at_y s).
Proof.
  unfold Grid.bands. generalize (Z.to_nat (totalChunks e - 1)) as m.
  generalize 0 as k. intros k m. revert k n.
  induction m as [|m IH]; intros k n; cbn [Grid.bands_from List.concat].
  - rewrite app_nil_r. apply visit_accepted.
  - intro H. apply in_app_or in H. destruct H as [H|H].
    + eapply visit_accepted. exact H.
    + eapply IH. exact H.
Qed.

Lemma positive_height_chunks (e : Closure) :
  totalChunks e = Math_ceil (drawHeight e /' inject_Z chunkSize) ->
  (0 < drawHeight e)%Q -> 1 <= totalChunks e.
Proof.
  intros -> Hpos. unfold Math_ceil.
  assert (H : (0 < drawHeight e /' inject_Z chunkSize)%Q).
  { apply binary64_pos. apply Qlt_shift_div_l; [reflexivity|].
    rewrite Qmult_0_l. exact Hpos. }
  assert (H2 : (inject_Z 0 < inject_Z (Qceiling (drawHeight e /' inject_Z chunkSize)))%Q).
  { eapply Qlt_le_trans; [exact H | apply Qle_ceiling]. }
  rewrite <- Zlt_Qlt in H2. lia.
Qed.

End RunFacts.

Section FormatFacts.

Import JS Grid.
Local Open Scope string_scope.

Lemma append_assoc (a b c : string) : (a ++ b) ++ c = a ++ (b ++ c).
Proof. induction a as [|ch a IH]; cbn; [reflexivity | rewrite IH; reflexivity]. Qed.

Lemma append_nil_r (a : string) : a ++ "" = a.
Proof. induction a as [|ch a IH]; cbn; [reflexivity | rewrite IH; reflexivity]. Qed.

Lemma length_append (a b : string) :
  String.length (a ++ b) = (String.length a + String.length b)%nat.
Proof. induction a as [|ch a IH]; cbn; [reflexivity | rewrite IH; reflexivity]. Qed.

Lemma take_append (a b : string) : take (String.length a) (a ++ b) = a.
Proof. induction a as [|ch a IH]; cbn; [destruct b; reflexivity | rewrite IH; reflexivity]. Qed.

Lemma drop_append (a b : string) : drop (String.length a) (a ++ b) = b.
Proof. induction a as [|ch a IH]; cbn; [destruct b; reflexivity | exact IH]. Qed.

Lemma digits_from_acc (fuel : nat) :
  forall n acc, digits_from fuel n acc = digits_from fuel n "" ++ acc.
Proof.
  induction fuel as [|f IH]; intros n acc; cbn [digits_from]; [reflexivity|].
  destruct (n <? 10)%Z; [reflexivity|].
  rewrite IH. rewrite (IH _ (String _ "")). rewrite append_assoc. reflexivity.
Qed.

Lemma digits_from_fuel (f1 : nat) :
  forall f2 n acc,
    (0 <= n < 2 ^ Z.of_nat f1)%Z -> (0 <= n < 2 ^ Z.of_nat f2)%Z ->
    (0 < f1)%nat -> (0 < f2)%nat ->
    digits_from f1 n acc = digits_from f2 n acc.
Proof.
  induction f1 as [|f1 IH]; intros f2 n acc H1 H2 P1 P2; [lia|].
  destruct f2 as [|f2]; [lia|].
  cbn [digits_from]. destruct (n <? 10)%Z eqn:E; [reflexivity|].
  apply Z.ltb_ge in E.
  rewrite Nat2Z.inj_succ, Z.pow_succ_r in H1, H2 by lia.
  assert (f1 <> 0 /\ f2 <> 0)%nat as [N1 N2].
  { split; intros ->; cbn in *; lia. }
  apply IH; try lia; (split; [apply Z.div_pos; lia|]);
    apply Z.div_lt_upper_bound; lia.
Qed.

Lemma digits_fuel_ok (n : Z) :
  (0 <= n)%Z -> (0 <= n < 2 ^ Z.of_nat (S (Z.to_nat (Z.log2 n))))%Z.
Proof.
  intro H. split; [exact H|].
  rewrite Nat2Z.inj_succ, Z2Nat.id by apply Z.log2_nonneg.
  destruct (Z.eq_dec n 0) as [->|Hn]; [reflexivity|].
  apply Z.log2_spec. lia.
Qed.

Lemma digits_small (n : Z) :
  (0 <= n < 10)%Z -> digits n = String (digit n) "".
Proof.
  intro H. unfold digits. cbn [digits_from].
  assert (E : (n <? 10)%Z = true) by (apply Z.ltb_lt; lia).
  rewrite E, Z.mod_small by lia. reflexivity.
Qed.

Lemma digits_step (n : Z) :
  (10 <= n)%Z -> digits n = digits (n / 10) ++ String (digit (n mod 10)) "".
Proof.
  intro H. unfold digits at 1. cbn [digits_from].
  assert (E : (n <? 10)%Z = false) by (apply Z.ltb_ge; lia).
  rewrite E, digits_from_acc. f_equal.
  unfold digits.
  assert (Hf := digits_fuel_ok n ltac:(lia)).
  rewrite Nat2Z.inj_succ, Z.pow_succ_r in Hf by lia.
  assert (Z.to_nat (Z.log2 n) <> 0)%nat.
  { intro E0. rewrite E0 in Hf. cbn in Hf. lia. }
  apply digits_from_fuel; try lia.
  - split; [apply Z.div_pos; lia | apply Z.div_lt_upper_bound; lia].
  - apply digits_fuel_ok. apply Z.div_pos; lia.
Qed.

(** The digits of [n >= 100] are those of [n / 100] followed by two more. *)
Lemma digits_split (n : Z) :
  (100 <= n)%Z ->
  digits n = digits (n / 100)
             ++ String (digit (n / 10 mod 10)) (String (digit (n mod 10)) "").
Proof.
  intro H. rewrite digits_step by lia.
  rewrite (digits_step (n / 10)).
  2:{ apply Z.div_le_lower_bound; lia. }
  rewrite Z.div_div by lia. rewrite append_assoc. reflexivity.
Qed.

Lemma digits_from_no_dot (fuel : nat) :
  forall n acc,
    replace "." "," (digits_from fuel n "" ++ acc)
    = digits_from fuel n "" ++ replace "." "," acc.
Proof.
  induction fuel as [|f IH]; intros n acc; cbn [digits_from]; [reflexivity|].
  assert (Hd : forall d rest,
             replace "." "," (String (digit (d mod 10)) rest)
             = String (digit (d mod 10)) (replace "." "," rest)).
  { intros d rest. cbn [replace].
    assert (Hr := Z.mod_pos_bound d 10 ltac:(lia)).
    assert (Hc : Ascii.eqb (digit (d mod 10)) "." = false).
    { unfold digit.
      assert (Hcases : exists k, (k < 10)%nat /\ Z.to_nat (d mod 10) = k)
        by (exists (Z.to_nat (d mod 10)); split; [lia | reflexivity]).
      destruct Hcases as (k & Hk & ->).
      do 10 (destruct k as [|k]; [reflexivity|]). lia. }
    rewrite Hc. reflexivity. }
  destruct (n <? 10)%Z.
  - cbn [append]. apply Hd.
  - rewrite (digits_from_acc f _ (String _ "")), append_assoc.
    rewrite IH. cbn [append]. rewrite Hd, append_assoc. reflexivity.
Qed.

Lemma digits_no_dot (n : Z) (rest : string) :
  replace "." "," (digits n ++ rest) = digits n ++ replace "." "," rest.
Proof. apply digits_from_no_dot. Qed.

Lemma digits_length_pos (n : Z) : (1 <= String.length (digits n))%nat.
Proof.
  unfold digits. cbn [digits_from]. destruct (n <? 10)%Z.
  - cbn. lia.
  - rewrite digits_from_acc, length_append. cbn. lia.
Qed.

Section ToFixedFacts.

Variable Number_toString : Q -> string.

(** A count of hundredths divided by 100, as a number, and read back. *)
Lemma hundredth_reads_back (n : Z) :
  (Z.abs n < 2 ^ 52)%Z ->
  let x := inject_Z n /' 100 in
  Qltb x 0 = (n <? 0)%Z
  /\ Qle_bool (inject_Z (10 ^ 21)) (if (n <? 0)%Z then (- x)%Q else x) = false
  /\ Qfloor ((if (n <? 0)%Z then (- x)%Q else x) * 100 + (1 # 2)) = Z.abs n.
Proof.
  intros Hn x.
  pose proof (binary64_near (inject_Z n / 100)) as [Hl Hu].
  change (binary64 (inject_Z n / 100)) with x in Hl, Hu.
  assert (Hb : (inject_Z (Z.abs n) < 4503599627370496)%Q).
  { change 4503599627370496%Q with (inject_Z (2 ^ 52)). rewrite <- Zlt_Qlt. exact Hn. }
  assert (Hq : (Qabs (inject_Z n / 100) == inject_Z (Z.abs n) / 100)%Q).
  { unfold Qdiv. rewrite Qabs_Qmult. rewrite (Qabs_pos (/ 100)) by discriminate.
    apply Qmult_comp; [|reflexivity].
    unfold Qabs, inject_Z. reflexivity. }
  rewrite Hq in Hl, Hu.
  assert (Ed : forall t : Q, (t / 100 == t * (1 # 100))%Q) by (intro t; reflexivity).
  rewrite !Ed in Hl, Hu.
  destruct (n <? 0)%Z eqn:E.
  - apply Z.ltb_lt in E.
    assert (Hneg : (inject_Z n / 100 < 0)%Q).
    { unfold Qlt, Qdiv, Qmult, Qinv, inject_Z. cbn [Qnum Qden]. lia. }
    assert (Hx : (x < 0)%Q) by (apply binary64_neg; exact Hneg).
    assert (Ea : (inject_Z (Z.abs n) == - inject_Z n)%Q).
    { rewrite Z.abs_neq by lia. rewrite inject_Z_opp. reflexivity. }
    split; [apply Qltb_lt; exact Hx|].
    remember (inject_Z (Z.abs n)) as m eqn:Em. remember (inject_Z n) as v eqn:Ev.
    clear Hq. clearbody x.
    split.
    + destruct (Qle_bool (inject_Z (10 ^ 21)) (- x)) eqn:F; [|reflexivity].
      apply Qle_bool_iff in F.
      change (inject_Z (10 ^ 21)) with 1000000000000000000000%Q in F. lra.
    + apply Qfloor_unique; rewrite <- Em; lra.
  - apply Z.ltb_ge in E.
    assert (Ea : (inject_Z (Z.abs n) == inject_Z n)%Q)
      by (rewrite Z.abs_eq by lia; reflexivity).
    assert (Hx : (0 <= x)%Q).
    { destruct (Z.eq_dec n 0) as [->|Hn0].
      - subst x. unfold Number_divide. rewrite binary64_zero by reflexivity.
        apply Qle_refl.
      - apply Qlt_le_weak, binary64_pos.
        unfold Qlt, Qdiv, Qmult, Qinv, inject_Z. cbn [Qnum Qden]. lia. }
    split.
    { destruct (Qltb x 0) eqn:F; [|reflexivity].
      apply Qltb_lt in F. lra. }
    remember (inject_Z (Z.abs n)) as m eqn:Em. remember (inject_Z n) as v eqn:Ev.
    clear Hq. clearbody x.
    split.
    + destruct (Qle_bool (inject_Z (10 ^ 21)) x) eqn:F; [|reflexivity].
      apply Qle_bool_iff in F.
      change (inject_Z (10 ^ 21)) with 1000000000000000000000%Q in F. lra.
    + apply Qfloor_unique; rewrite <- Em; lra.
Qed.

(** [toFixed(2)] of a count of hundredths divided by 100. *)
Lemma toFixed2_hundredths (n : Z) :
  (Z.abs n < 2 ^ 52)%Z ->
  toFixed2 Number_toString (inject_Z n /' 100)
  = (if (n <? 0)%Z then "-" else "")
    ++ digits (Z.abs n / 100) ++ "."
    ++ String (digit (Z.abs n / 10 mod 10)) (String (digit (Z.abs n mod 10)) "").
Proof.
  intro Hn. destruct (hundredth_reads_back n Hn) as (Hs & Hbig & Hfl).
  unfold toFixed2. rewrite Hs, Hbig, Hfl. clear Hs Hbig Hfl.
  set (a := Z.abs n) in *. assert (Ha : (0 <= a)%Z) by (subst a; lia).
  f_equal.
  assert (Hm : (if (a =? 0)%Z then "0" else digits a) = digits a).
  { destruct (a =? 0)%Z eqn:E; [|reflexivity]. apply Z.eqb_eq in E. rewrite E. reflexivity. }
  rewrite Hm.
  destruct (Z_lt_le_dec a 10) as [H10|H10].
  - rewrite (digits_small a) by lia. cbn [String.length Nat.leb Nat.sub take drop append].
    rewrite !Z.div_small by lia. rewrite Z.mod_0_l by lia.
    rewrite Z.mod_small by lia. reflexivity.
  - destruct (Z_lt_le_dec a 100) as [H100|H100].
    + rewrite (digits_step a) by lia.
      assert (0 <= a / 10 < 10)%Z.
      { split; [apply Z.div_pos; lia | apply Z.div_lt_upper_bound; lia]. }
      rewrite (digits_small (a / 10)) by lia.
      cbn [String.length Nat.leb Nat.sub take drop append].
      rewrite (Z.div_small a 100) by lia.
      rewrite (Z.mod_small (a / 10)) by lia. reflexivity.
    + rewrite (digits_split a) by lia.
      set (hi := digits (a / 100)).
      set (lo := String (digit (a / 10 mod 10)) (String (digit (a mod 10)) "")).
      assert (Hlen : String.length (hi ++ lo) = (String.length hi + 2)%nat)
        by (rewrite length_append; reflexivity).
      assert (Hpos := digits_length_pos (a / 100)). fold hi in Hpos.
      rewrite Hlen.
      replace (String.length hi + 2 <=? 2)%nat with false
        by (symmetry; apply Nat.leb_gt; lia).
      replace (String.length hi + 2 - 2)%nat with (String.length hi) by lia.
      rewrite take_append, drop_append. reflexivity.
Qed.

(** A coordinate as the renderer prints it: counted in hundredths by
    [Math.round(v * 100)], divided by 100 and written with two decimals
    after a comma. *)
Lemma printed_coordinate (v : Q) :
  (Z.abs (hundredths v) < 2 ^ 52)%Z ->
  replace "." "," (toFixed2 Number_toString (inject_Z (Math_round (v *' 100)) /' 100))
  = two_decimals_comma v.
Proof.
  intro H. change (Math_round (v *' 100)) with (hundredths v).
  rewrite toFixed2_hundredths by assumption.
  unfold two_decimals_comma.
  destruct (hundredths v <? 0)%Z; cbn [append replace Ascii.eqb Bool.eqb];
    rewrite digits_no_dot; reflexivity.
Qed.

End ToFixedFacts.

End FormatFacts.

(* ================================================================== *)
(** * The classifier and the accept rule *)
(* ================================================================== *)

Section Classifier.

Import JS Engine Grid.

Lemma float_255_neq_0 : 255%float <> 0%float.
Proof.
  intro H. apply (f_equal (fun x => PrimFloat.eqb x 0)) in H.
  vm_compute in H. discriminate.
Qed.

Lemma getGrayscaleValue_cases (alpla r g b : float) :
  (Utils.getGrayscaleValue alpla r g b = 255%float
   /\ (alpla <? 0.299 * r + 0.587 * g + 0.114 * b)%float = true)
  \/ (Utils.getGrayscaleValue alpla r g b = 0%float
      /\ (alpla <? 0.299 * r + 0.587 * g + 0.114 * b)%float = false).
Proof.
  unfold Utils.getGrayscaleValue. cbv zeta.
  destruct (alpla <? 0.299 * r + 0.587 * g + 0.114 * b)%float; auto.
Qed.


(** The luminance is a binary64 value: for the pixel (1, 113, 205), whose
    exact luminance is 90, the sum is rounded to the next double above 90,
    so that threshold 90 classifies it as above. *)
Example luminance_is_rounded :
  Utils.getGrayscaleValue 90 1 113 205 = 255%float
  /\ (299 * 1 + 587 * 113 + 114 * 205 = 1000 * 90)%Z.
Proof. split; [vm_compute|]; reflexivity. Qed.

(** X1: On gray pixels the rounding never crosses an integer threshold: for
    bytes v and t the pixel (v, v, v) is classified above t exactly when
    v > t. *)
Lemma classifier_on_gray (v t : Z) :
  0 <= v <= 255 -> 0 <= t <= 255 ->
  Utils.getGrayscaleValue (number_of_Z t) (number_of_Z v) (number_of_Z v)
    (number_of_Z v) = 255%float
  <-> t < v.
Proof.
  intros Hv Ht.
  assert (Hin : forall z, 0 <= z <= 255 -> In z Scenario.bytes).
  { intros z Hz. unfold Scenario.bytes. apply in_map_iff.
    exists (Z.to_nat z). split; [lia | apply in_seq; lia]. }
  assert (Htab : Scenario.gray_table = true) by (vm_compute; reflexivity).
  unfold Scenario.gray_table in Htab.
  rewrite forallb_forall in Htab. specialize (Htab v (Hin v Hv)).
  rewrite forallb_forall in Htab. specialize (Htab t (Hin t Ht)).
  unfold Scenario.gray_agrees in Htab. apply eqb_prop in Htab.
  rewrite <- Z.ltb_lt, <- Htab.
  destruct (getGrayscaleValue_cases (number_of_Z t) (number_of_Z v)
              (number_of_Z v) (number_of_Z v)) as [[Hval _]|[Hval _]];
    rewrite Hval.
  - split; reflexivity.
  - split; [intro H; symmetry in H; destruct (float_255_neq_0 H)|].
    vm_compute. discriminate.
Qed.

Lemma accepted_true_iff (e : Closure) (x y : Z) :
  accepted e x y = true
  <-> ((240 <? grayscale_at e x y)%float = true /\ inversive e = false)
      \/ ((grayscale_at e x y <=? 240)%float = true /\ inversive e = true).
Proof.
  unfold accepted. cbv zeta.
  rewrite orb_true_iff, !andb_true_iff, negb_true_iff. tauto.
Qed.

End Classifier.

Section AcceptRule.

Import JS Engine Grid.

Variable random : nat -> Q.
Variables Math_cos Math_sin : Q -> Q.
Variable Number_toString : Q -> string.

Local Abbreviation sample_point := (sample_point random Math_cos Math_sin Number_toString).

Lemma lines_accepted (x y : Z) (t : Q * Q * string) :
  lines [mkSample x y (Some t)] = [snd t].
Proof. destruct t as [[cx cy] l]. reflexivity. Qed.

(** What the loop body does at one grid point. *)
Lemma sample_point_effect (e : Closure) (x y : Z) (positions : list string)
    (w : World) :
  sample_point e y x positions w
  = if accepted e x y
    then Some (positions
                 ++ [snd (Grid.dot Math_cos Math_sin Number_toString e x y
                            (random (randoms w)) (random (S (randoms w))))],
               after_samples (context e)
                 [mkSample x y
                    (Some (Grid.dot Math_cos Math_sin Number_toString e x y
                             (random (randoms w)) (random (S (randoms w)))))] w)
    else Some (positions, after_samples (context e) [mkSample x y None] w).
Proof.
  pose proof (foldM_points random Math_cos Math_sin Number_toString e [(x, y)]
                positions w) as H.
  cbn [foldM fst snd] in H. unfold bind in H.
  destruct (sample_point e y x positions w) as [[ps w']|]; [|discriminate H].
  unfold ret in H. rewrite H. cbn [Grid.visit].
  destruct (accepted e x y).
  - rewrite lines_accepted. reflexivity.
  - unfold lines. cbn [flat_map line_of outcome app].
    rewrite app_nil_r. reflexivity.
Qed.

(** C1: at every grid sample the engine accepts the point (draws its dot
    and pushes its line) exactly when the classifier's output is above 240
    and the run is not inverted, or at most 240 and the run is inverted;
    otherwise nothing is drawn or pushed.  The value tested against 240 is
    the classifier's output for the sampled pixel under the run's own
    threshold, so the rule is the threshold test combined with the
    inversion flag. *)
Theorem C1_accept_rule (e : Closure) (x y : Z) (positions : list string)
    (w : World) :
  let grayscale := grayscale_at e x y in
  let i := pixel_index e x y in
  let luminance :=
    (0.299 * to_number (typed_get (data e) i)
     + 0.587 * to_number (typed_get (data e) (i +' 1))
     + 0.114 * to_number (typed_get (data e) (i +' 2)))%float in
  let rule :=
    ((240 <? grayscale)%float = true /\ inversive e = false)
    \/ ((grayscale <=? 240)%float = true /\ inversive e = true) in
  (rule <->
     exists line w', sample_point e y x positions w
                     = Some ((positions ++ [line])%list, w')
                     /\ List.length (surface w') = (List.length (surface w) + 4)%nat)
  /\ (~ rule <->
      exists w', sample_point e y x positions w = Some (positions, w')
                 /\ surface w' = surface w)
  /\ grayscale
     = Utils.getGrayscaleValue (number_of_Z (alpha e))
         (to_number (typed_get (data e) i))
         (to_number (typed_get (data e) (i +' 1)))
         (to_number (typed_get (data e) (i +' 2)))
  /\ (rule <->
      ((number_of_Z (alpha e) <? luminance)%float = true /\ inversive e = false)
      \/ ((number_of_Z (alpha e) <? luminance)%float = false /\ inversive e = true)).
Proof.
  cbv zeta. rewrite <- accepted_true_iff. rewrite sample_point_effect.
  assert (Hlen : forall (a b : list string) (w1 w2 : World),
            Some (a, w1) = Some (b, w2) -> List.length a = List.length b).
  { intros a b w1 w2 H.
    apply (f_equal (fun o => match o with
                             | Some r => List.length (fst r)
                             | None => 0%nat
                             end)) in H.
    exact H. }
  split; [|split; [|split]].
  - destruct (accepted e x y); split.
    + intros _. eexists _, _. split; [reflexivity|].
      unfold after_samples. cbn [surface flat_map strokes outcome].
      destruct (Grid.dot _ _ _ _ _ _ _ _) as [[cx cy] l].
      rewrite !length_app. reflexivity.
    + reflexivity.
    + discriminate.
    + intros (line & w' & H & _). apply Hlen in H.
      rewrite length_app in H. cbn [List.length] in H. lia.
  - destruct (accepted e x y); split.
    + intro H. exfalso. apply H. reflexivity.
    + intros (w' & H & _). apply Hlen in H.
      rewrite length_app in H. cbn [List.length] in H. lia.
    + intros _. eexists. split; [reflexivity|].
      unfold after_samples. cbn [surface flat_map strokes outcome].
      rewrite !app_nil_r. reflexivity.
    + discriminate.
  - reflexivity.
  - rewrite accepted_true_iff. unfold grayscale_at, Utils.getGrayscaleValue. cbv zeta.
    destruct (PrimFloat.ltb (number_of_Z (alpha e)) _).
    + change (240 <? 255)%float with true. change (255 <=? 240)%float with false.
      intuition congruence.
    + change (240 <? 0)%float with false. change (0 <=? 240)%float with true.
      intuition congruence.
Qed.

End AcceptRule.

Section RowFacts.

Import JS Engine Grid.

Variables (scaleFactor : Q) (context : nat) (img : Image) (width height : Q)
          (inversive : bool) (spacing alpha : Z) (filePath : option string).

Local Abbreviation e :=
  (closure_of scaleFactor context img width height inversive spacing alpha filePath).

Lemma band_indices_In (k : Z) :
  In k (band_indices e) <-> 0 <= k <= Z.max 0 (totalChunks e - 1).
Proof.
  unfold band_indices. rewrite in_map_iff. split.
  - intros (i & <- & Hi). apply in_seq in Hi. lia.
  - intro H. exists (Z.to_nat k). split; [lia|]. apply in_seq. lia.
Qed.

Lemma rows_In (y : Z) :
  0 < spacing ->
  In y (rows e)
  <-> exists k, 0 <= k <= Z.max 0 (totalChunks e - 1)
                /\ k * 100 <= y < k * 100 + 100
                /\ (inject_Z y < drawHeight e)%Q
                /\ (spacing | y - k * 100).
Proof.
  intro Hs. unfold rows. rewrite in_flat_map. split.
  - intros (k & Hk & Hy). exists k. apply band_indices_In in Hk.
    apply (band_rows_In e k y Hs) in Hy. tauto.
  - intros (k & Hk & Hy). exists k. split; [apply band_indices_In; exact Hk|].
    apply (band_rows_In e k y Hs). tauto.
Qed.

(** When the step divides the band height the restart of the lattice at
    each band is invisible: the rows are the multiples of the step below
    drawHeight and below the end of the last band. *)
Lemma rows_uniform (y : Z) :
  0 < spacing -> (spacing | 100) ->
  In y (rows e)
  <-> 0 <= y < 100 * Z.max 1 (totalChunks e)
      /\ (inject_Z y < drawHeight e)%Q /\ (spacing | y).
Proof.
  intros Hs Hd. rewrite rows_In by exact Hs. split.
  - intros (k & Hk & Hy & Hlt & Hdiv). split; [lia|]. split; [exact Hlt|].
    replace y with ((y - k * 100) + k * 100) by lia.
    apply Z.divide_add_r; [exact Hdiv | apply Z.divide_mul_r; exact Hd].
  - intros (H0 & Hlt & Hdiv). exists (y / 100).
    assert (Hq := Z.div_mod y 100 ltac:(lia)).
    assert (Hr := Z.mod_pos_bound y 100 ltac:(lia)).
    assert (0 <= y / 100) by (apply Z.div_pos; lia).
    split; [|split; [lia|split; [exact Hlt|]]].
    + lia.
    + replace (y - y / 100 * 100) with (y + (- (y / 100)) * 100) by lia.
      apply Z.divide_add_r; [exact Hdiv | apply Z.divide_mul_r; exact Hd].
Qed.

Lemma flat_map_nth_seq {A B} (f : list A -> list B) (l : list (list A)) :
  flat_map (fun k => f (nth k l [])) (seq 0 (List.length l)) = flat_map f l.
Proof.
  induction l as [|a l IH]; [reflexivity|].
  cbn [List.length seq flat_map nth]. f_equal.
  rewrite <- seq_shift, flat_map_concat_map, map_map, <- flat_map_concat_map.
  exact IH.
Qed.

Lemma lines_concat (l : list (list Sample)) :
  lines (List.concat l) = flat_map lines l.
Proof.
  induction l as [|a l IH]; [reflexivity|].
  cbn [List.concat flat_map]. rewrite lines_app, IH. reflexivity.
Qed.

Lemma join_nil : join Scenario.nl [] = EmptyString.
Proof. reflexivity. Qed.

End RowFacts.

(* ================================================================== *)
(** * A run of processImage *)
(* ================================================================== *)

Section ImageRun.

Import JS Engine Grid.

Variable random : nat -> Q.
Variables Math_cos Math_sin : Q -> Q.
Variable Number_toString : Q -> string.

Variables (scaleFactor : Q) (context : nat) (img : Image) (width height : Q)
          (inversive : bool) (spacing alpha : Z) (filePath : option string).

Local Abbreviation e :=
  (closure_of scaleFactor context img width height inversive spacing alpha filePath).
Local Abbreviation run :=
  (run_image random Math_cos Math_sin Number_toString scaleFactor context img
     width height inversive spacing alpha filePath).
Local Abbreviation bands := (bands random Math_cos Math_sin Number_toString).

Lemma processImage_closure (w : World) :
  processImage random Math_cos Math_sin Number_toString scaleFactor context img
    width height inversive spacing alpha filePath w
  = processChunk random Math_cos Math_sin Number_toString e 0 (prepare e img width w).
Proof.
  unfold processImage, bind, on_context, prepare, closure_of.
  cbn [randoms surface sent frames samples Engine.context Engine.height
       Engine.inversive offsetX offsetY drawWidth drawHeight].
  rewrite <- !app_assoc. reflexivity.
Qed.

Lemma run_image_render (w : World) :
  run w = render random Math_cos Math_sin Number_toString e (prepare e img width w).
Proof.
  unfold run_image, render, bind. rewrite processImage_closure. reflexivity.
Qed.

(** The effect of a whole run that starts with no callback pending. *)
Lemma run_image_bands (w : World) :
  0 < spacing ->
  frames w = [] ->
  run w
  = Some (tt,
      mkWorld
        (randoms w + consumed (List.concat (bands e (randoms w))))
        (surface (prepare e img width w)
           ++ flat_map (strokes context) (List.concat (bands e (randoms w))))
        (sent w ++ chunk_messages e (bands e (randoms w)))
        []
        (samples w ++ List.concat (bands e (randoms w)))).
Proof.
  intros Hs Hf. rewrite run_image_render.
  rewrite render_bands; [reflexivity | exact Hs | exact Hf].
Qed.

End ImageRun.

Section RunClaims.

Import JS Engine Grid.

Variable random : nat -> Q.
Variables Math_cos Math_sin : Q -> Q.
Variable Number_toString : Q -> string.

Variables (scaleFactor : Q) (context : nat) (img : Image) (width height : Q)
          (inversive : bool) (spacing alpha : Z) (filePath : option string).

Local Abbreviation e :=
  (closure_of scaleFactor context img width height inversive spacing alpha filePath).
Local Abbreviation run :=
  (run_image random Math_cos Math_sin Number_toString scaleFactor context img
     width height inversive spacing alpha filePath).
Local Abbreviation bands := (bands random Math_cos Math_sin Number_toString).

(** C4 (amended): a run samples, row after row, the points [(x, y)] with
    [x] in the column lattice 0, spacing, 2 spacing, ... below drawWidth and
    [y] in the row lattice of some band k: 100 k, 100 k + spacing, ... below
    both the band's end 100 (k + 1) and drawHeight.  The row lattice starts
    afresh at the first pixel row of every band; it is the single lattice
    0, spacing, 2 spacing, ... below drawHeight when spacing divides 100. *)
Theorem C4_sampled_grid_per_band (w : World) :
  0 < spacing ->
  frames w = [] ->
  exists w' news,
    run w = Some (tt, w')
    /\ samples w' = (samples w ++ news)%list
    /\ map point_of news = flat_map (row_points e) (rows e)
    /\ (forall x y, In (x, y) (map point_of news)
                    <-> In y (rows e) /\ In x (columns e))
    /\ (forall y, In y (rows e)
                  <-> exists k, 0 <= k <= Z.max 0 (totalChunks e - 1)
                                /\ k * 100 <= y < k * 100 + 100
                                /\ (inject_Z y < drawHeight e)%Q
                                /\ (spacing | y - k * 100))
    /\ (forall x, In x (columns e)
                  <-> 0 <= x /\ (inject_Z x < drawWidth e)%Q /\ (spacing | x))
    /\ ((spacing | 100) ->
        forall y, In y (rows e)
                  <-> 0 <= y < 100 * Z.max 1 (totalChunks e)
                      /\ (inject_Z y < drawHeight e)%Q /\ (spacing | y)).
Proof.
  intros Hs Hf.
  eexists _, (List.concat (bands e (randoms w))).
  split; [apply run_image_bands; assumption|].
  split; [reflexivity|].
  split; [apply bands_points|].
  split.
  { intros x y. rewrite bands_points. unfold row_points.
    rewrite in_flat_map. split.
    - intros (y' & Hy & Hx). apply in_map_iff in Hx.
      destruct Hx as (x' & Heq & Hx). inversion Heq; subst. tauto.
    - intros [Hy Hx]. exists y. split; [exact Hy|].
      apply in_map_iff. exists x. tauto. }
  split; [intro y; apply rows_In; exact Hs|].
  split; [intro x; apply (columns_In e x Hs)|].
  intros Hd y. apply rows_uniform; assumption.
Qed.

(** C5: a run with an export destination, for a fitted picture of positive
    height, sends ceil(drawHeight / 100) 'save-chunk' messages, in band
    order.  The text of the k-th is the lines of the accepted samples whose
    row lies in the pixel rows 100 k .. 100 k + 99, joined by newlines and
    followed by one newline; it is a single newline when that band has no
    accepted sample.  The lines of all chunks, in order, are the lines of
    all accepted samples, the samples being taken row after row with
    strictly increasing rows and, within a row, strictly increasing
    columns. *)
Theorem C5_chunks (w : World) (p : string) :
  0 < spacing ->
  (0 < drawHeight e)%Q ->
  filePath = Some p ->
  p <> EmptyString ->
  frames w = [] ->
  exists w' news texts,
    run w = Some (tt, w')
    /\ samples w' = (samples w ++ news)%list
    /\ sent w' = (sent w ++ map (SaveChunk p) texts)%list
    /\ Z.of_nat (List.length texts) = Math_ceil (drawHeight e /' 100)
    /\ (forall k, (k < List.length texts)%nat ->
          nth k texts EmptyString
          = (join Scenario.nl (lines (filter (in_band (Z.of_nat k)) news))
             ++ Scenario.nl)%string)
    /\ (forall k, (k < List.length texts)%nat ->
          lines (filter (in_band (Z.of_nat k)) news) = [] ->
          nth k texts EmptyString = Scenario.nl)
    /\ flat_map (fun k => lines (filter (in_band (Z.of_nat k)) news))
         (seq 0 (List.length texts))
       = lines news
    /\ map point_of news = flat_map (row_points e) (rows e)
    /\ StronglySorted Z.lt (rows e)
    /\ StronglySorted Z.lt (columns e)
    /\ (forall s, In s news -> is_accepted s = accepted e (at_x s) (at_y s)).
Proof.
  intros Hs Hh Hp Hne Hf.
  set (B := bands e (randoms w)).
  assert (Hlen : List.length (map chunk_text B) = List.length B)
    by apply length_map.
  assert (Htext : forall k, (k < List.length (map chunk_text B))%nat ->
            nth k (map chunk_text B) EmptyString
            = (join Scenario.nl (lines (filter (in_band (Z.of_nat k)) (List.concat B)))
               ++ Scenario.nl)%string).
  { intros k Hk. rewrite Hlen in Hk.
    rewrite (nth_indep _ EmptyString (chunk_text [])) by lia.
    rewrite (map_nth chunk_text). unfold B in *.
    rewrite <- (bands_filter random Math_cos Math_sin Number_toString e
                  (randoms w) k Hs Hk).
    reflexivity. }
  exists (mkWorld
            (randoms w + consumed (List.concat B))
            (surface (prepare e img width w)
               ++ flat_map (strokes context) (List.concat B))
            (sent w ++ chunk_messages e B) [] (samples w ++ List.concat B)),
         (List.concat B), (map chunk_text B).
  split; [apply run_image_bands; assumption|].
  split; [reflexivity|].
  split.
  { cbn [sent]. f_equal. unfold chunk_messages. cbn [Engine.filePath closure_of].
    subst filePath. destruct p as [|c p']; [contradiction|].
    cbn [truthy]. rewrite map_map. reflexivity. }
  split.
  { rewrite Hlen. unfold B. rewrite bands_length.
    assert (H1 := positive_height_chunks e eq_refl Hh).
    change (Math_ceil (drawHeight e /' 100)) with (totalChunks e). lia. }
  split; [exact Htext|].
  split.
  { intros k Hk Hnil. rewrite Htext by exact Hk. rewrite Hnil. reflexivity. }
  split.
  { rewrite Hlen.
    rewrite (flat_map_ext _ (fun k => lines (nth k B []))).
    - rewrite (flat_map_nth_seq lines B). symmetry. apply lines_concat.
    - intros k. destruct (Nat.lt_ge_cases k (List.length B)) as [Hk|Hk].
      + unfold B in *.
        rewrite <- (bands_filter random Math_cos Math_sin Number_toString e
                      (randoms w) k Hs Hk). reflexivity.
      + rewrite (nth_overflow B) by exact Hk.
        unfold B, Grid.bands in *.
        rewrite bands_from_length in Hk.
        destruct (bands_from_filter random Math_cos Math_sin Number_toString e
                    (Z.of_nat k) Hs (Z.to_nat (totalChunks e - 1)) 0 (randoms w))
          as [_ Hin].
        assert (Hout : forall s,
                  In s (List.concat
                          (bands_from random Math_cos Math_sin Number_toString e 0
                             (Z.to_nat (totalChunks e - 1)) (randoms w))) ->
                  in_band (Z.of_nat k) s = false).
        { intros s Hin_s. apply in_concat in Hin_s.
          destruct Hin_s as (band & Hband & Hs_band).
          apply (In_nth _ _ []) in Hband. destruct Hband as (j & Hj & <-).
          rewrite bands_from_length in Hj.
          destruct (bands_from_filter random Math_cos Math_sin Number_toString e
                      (Z.of_nat j) Hs (Z.to_nat (totalChunks e - 1)) 0 (randoms w))
            as [_ Hjin].
          rewrite Z.sub_0_r, Nat2Z.id in Hjin.
          rewrite <- Hjin in Hs_band by lia.
          apply filter_In in Hs_band. destruct Hs_band as [_ Hb].
          eapply in_band_unique; [exact Hb | lia]. }
        rewrite (filter_none _ _ Hout). reflexivity. }
  split; [apply bands_points|].
  split; [apply rows_sorted; exact Hs|].
  split; [apply columns_sorted; exact Hs|].
  intros s. apply bands_accepted.
Qed.

End RunClaims.

Section SameGrid.

Import JS Engine Grid.

(** What the grid and the acceptance of a closure depend on. *)
Lemma accepted_same (e1 e2 : Closure) :
  drawWidth e1 = drawWidth e2 -> data e1 = data e2 -> alpha e1 = alpha e2 ->
  inversive e1 = inversive e2 ->
  forall x y, accepted e1 x y = accepted e2 x y.
Proof.
  intros Hw Hd Ha Hi x y. unfold accepted, grayscale_at, pixel_index.
  rewrite Hw, Hd, Ha, Hi. reflexivity.
Qed.

Lemma grayscale_at_same (e1 e2 : Closure) :
  drawWidth e1 = drawWidth e2 -> data e1 = data e2 -> alpha e1 = alpha e2 ->
  forall x y, grayscale_at e1 x y = grayscale_at e2 x y.
Proof.
  intros Hw Hd Ha x y. unfold grayscale_at, pixel_index.
  rewrite Hw, Hd, Ha. reflexivity.
Qed.

Lemma row_points_same (e1 e2 : Closure) :
  drawWidth e1 = drawWidth e2 -> spacing e1 = spacing e2 ->
  forall y, row_points e1 y = row_points e2 y.
Proof.
  intros Hw Hs y. unfold row_points, columns. rewrite Hw, Hs. reflexivity.
Qed.

Lemma band_points_same (e1 e2 : Closure) :
  drawWidth e1 = drawWidth e2 -> drawHeight e1 = drawHeight e2 ->
  spacing e1 = spacing e2 ->
  forall k, band_points e1 k = band_points e2 k.
Proof.
  intros Hw Hh Hs k. unfold band_points, band_rows.
  rewrite Hh, Hs. apply flat_map_ext. apply row_points_same; assumption.
Qed.

Lemma rows_same (e1 e2 : Closure) :
  drawHeight e1 = drawHeight e2 -> spacing e1 = spacing e2 ->
  totalChunks e1 = totalChunks e2 ->
  rows e1 = rows e2.
Proof.
  intros Hh Hs Ht. unfold rows, band_indices, band_rows.
  rewrite Hh, Hs, Ht. reflexivity.
Qed.

(** The fit, the data and the number of bands of the closure [processImage]
    builds do not depend on the scale factor, the context, the inversion
    flag or the destination. *)
Lemma closure_of_grid (scaleFactor1 scaleFactor2 : Q) (context1 context2 : nat)
    (img : Image) (width height : Q) (inversive1 inversive2 : bool)
    (spacing alpha : Z) (filePath1 filePath2 : option string) :
  let e1 := closure_of scaleFactor1 context1 img width height inversive1 spacing
              alpha filePath1 in
  let e2 := closure_of scaleFactor2 context2 img width height inversive2 spacing
              alpha filePath2 in
  drawWidth e1 = drawWidth e2 /\ drawHeight e1 = drawHeight e2
  /\ Engine.spacing e1 = Engine.spacing e2 /\ totalChunks e1 = totalChunks e2
  /\ data e1 = data e2 /\ Engine.alpha e1 = Engine.alpha e2
  /\ offsetX e1 = offsetX e2 /\ offsetY e1 = offsetY e2
  /\ Engine.height e1 = Engine.height e2.
Proof.
  cbv zeta. unfold closure_of.
  cbn [drawWidth drawHeight Engine.spacing totalChunks data Engine.alpha offsetX
       offsetY Engine.height].
  repeat split; reflexivity.
Qed.

Lemma grid_same (e1 e2 : Closure) :
  drawWidth e1 = drawWidth e2 -> drawHeight e1 = drawHeight e2 ->
  spacing e1 = spacing e2 -> totalChunks e1 = totalChunks e2 ->
  flat_map (row_points e1) (rows e1) = flat_map (row_points e2) (rows e2).
Proof.
  intros Hw Hh Hs Ht. rewrite (rows_same e1 e2 Hh Hs Ht).
  apply flat_map_ext. apply row_points_same; assumption.
Qed.

End SameGrid.

Section ShapeFacts.

Import JS Engine Grid.

Variable random : nat -> Q.
Variables Math_cos Math_sin : Q -> Q.
Variable Number_toString : Q -> string.

Local Abbreviation visit := (visit random Math_cos Math_sin Number_toString).
Local Abbreviation bands_from := (bands_from random Math_cos Math_sin Number_toString).
Local Abbreviation bands := (bands random Math_cos Math_sin Number_toString).

Lemma visit_shape (e : Closure) (pts : list (Z * Z)) :
  forall n, map shape (visit e pts n) = map (decided e) pts.
Proof.
  induction pts as [|[x y] pts IH]; intro n; cbn [Grid.visit map]; [reflexivity|].
  unfold decided at 1. cbn [fst snd].
  destruct (accepted e x y); cbn [map]; rewrite IH; reflexivity.
Qed.

Lemma bands_from_shape (e : Closure) (m : nat) :
  forall s n,
    map shape (List.concat (bands_from e (Z.of_nat s) m n))
    = map (decided e) (flat_map (band_points e) (map Z.of_nat (seq s (S m)))).
Proof.
  induction m as [|m IH]; intros s n.
  - cbn [Grid.bands_from List.concat seq map flat_map].
    rewrite !app_nil_r. apply visit_shape.
  - cbn [Grid.bands_from List.concat]. rewrite map_app, visit_shape.
    replace (Z.of_nat s + 1) with (Z.of_nat (S s)) by lia.
    rewrite IH, <- map_app. reflexivity.
Qed.

Lemma bands_shape (e : Closure) (n : nat) :
  map shape (List.concat (bands e n))
  = map (decided e) (flat_map (row_points e) (rows e)).
Proof.
  unfold Grid.bands, rows, band_indices.
  rewrite (bands_from_shape e _ 0%nat n).
  rewrite flat_map_flat_map. reflexivity.
Qed.

Lemma accepted_points_shape (l : list Sample) :
  map point_of (filter is_accepted l) = map fst (filter snd (map shape l)).
Proof.
  induction l as [|s l IH]; [reflexivity|].
  cbn [filter map]. unfold shape at 1. cbn [snd].
  destruct (is_accepted s); cbn [map fst]; rewrite IH; reflexivity.
Qed.

Lemma lines_length_shape (l : list Sample) :
  List.length (lines l) = List.length (filter snd (map shape l)).
Proof.
  induction l as [|s l IH]; [reflexivity|].
  unfold lines in *. cbn [flat_map filter map]. rewrite length_app, IH.
  assert (Hs : snd (shape s) = is_accepted s) by reflexivity.
  rewrite Hs. unfold is_accepted, line_of.
  destruct (outcome s) as [[[cx cy] line]|]; reflexivity.
Qed.

(** [Math.round(v * 100)] is within a half of the product [v * 100] as
    the doubles give it, which is the exact product up to one rounding. *)
Lemma hundredths_nearest (v : Q) :
  (Qabs (inject_Z (hundredths v) - v * 100)
   <= (1 # 2) + Qabs (v * 100) * (1 # 9007199254740992))%Q.
Proof.
  unfold hundredths, Math_round, Number_multiply.
  pose proof (binary64_near (v * 100)) as [Hl Hu].
  pose proof (Qfloor_le (binary64 (v * 100) + (1 # 2))) as F1.
  pose proof (Qlt_floor (binary64 (v * 100) + (1 # 2))) as F2.
  rewrite inject_Z_plus in F2. change (inject_Z 1) with 1%Q in F2.
  pose proof (Qabs_nonneg (v * 100)) as Hm.
  remember (Qabs (v * 100)) as m. remember (binary64 (v * 100)) as p.
  remember (inject_Z (Qfloor (p + (1 # 2)))) as h.
  remember (v * 100)%Q as t.
  apply Qabs_Qle_condition. split; lra.
Qed.

End ShapeFacts.

(* ================================================================== *)
(** * Exported coordinates *)
(* ================================================================== *)

Section ExportedLine.

Import JS Engine Grid.
Local Open Scope string_scope.

Variable random : nat -> Q.
Variables Math_cos Math_sin : Q -> Q.
Variable Number_toString : Q -> string.


End ExportedLine.

(* ================================================================== *)
(** * Determinism up to the jitter *)
(* ================================================================== *)

Section Determinism.

Import JS Engine Grid.

(** C9: two runs over the same picture, viewport, spacing, threshold and
    inversion flag, with whatever jitter sources, visit the same grid points
    in the same order and accept the same ones: the accepted grid
    coordinates agree in number and order, and whether a point is accepted
    is a function of the closure's bitmap, threshold and flag alone. *)
Theorem C9_acceptance_ignores_jitter
    (random1 random2 : nat -> Q) (cos1 sin1 cos2 sin2 : Q -> Q)
    (toString1 toString2 : Q -> string)
    (scaleFactor1 scaleFactor2 : Q) (context1 context2 : nat)
    (filePath1 filePath2 : option string)
    (img : Image) (width height : Q) (inversive : bool) (spacing alpha : Z)
    (w1 w2 : World) :
  0 < spacing ->
  frames w1 = [] ->
  frames w2 = [] ->
  let e := closure_of scaleFactor1 context1 img width height inversive spacing
             alpha filePath1 in
  exists w1' w2' news1 news2,
    run_image random1 cos1 sin1 toString1 scaleFactor1 context1 img width height
      inversive spacing alpha filePath1 w1 = Some (tt, w1')
    /\ run_image random2 cos2 sin2 toString2 scaleFactor2 context2 img width height
         inversive spacing alpha filePath2 w2 = Some (tt, w2')
    /\ samples w1' = samples w1 ++ news1
    /\ samples w2' = samples w2 ++ news2
    /\ map shape news1 = map shape news2
    /\ map point_of (filter is_accepted news1)
       = map point_of (filter is_accepted news2)
    /\ List.length (lines news1) = List.length (lines news2)
    /\ map shape news1 = map (decided e) (flat_map (row_points e) (rows e)).
Proof.
  intros Hs Hf1 Hf2 e. subst e.
  pose proof (run_image_bands random1 cos1 sin1 toString1 scaleFactor1 context1
                img width height inversive spacing alpha filePath1 w1 Hs Hf1) as R1.
  pose proof (run_image_bands random2 cos2 sin2 toString2 scaleFactor2 context2
                img width height inversive spacing alpha filePath2 w2 Hs Hf2) as R2.
  assert (Hshape :
    map shape (List.concat
        (bands random1 cos1 sin1 toString1
           (closure_of scaleFactor1 context1 img width height inversive spacing
              alpha filePath1) (randoms w1)))
    = map shape (List.concat
        (bands random2 cos2 sin2 toString2
           (closure_of scaleFactor2 context2 img width height inversive spacing
              alpha filePath2) (randoms w2)))).
  { rewrite !bands_shape.
    destruct (closure_of_grid scaleFactor1 scaleFactor2 context1 context2 img
                width height inversive inversive spacing alpha filePath1 filePath2)
      as (Hw & Hh & Hsp & Ht & Hd & Ha & _).
    rewrite (grid_same _ _ Hw Hh Hsp Ht).
    apply map_ext. intro p. unfold decided.
    rewrite (accepted_same _ _ Hw Hd Ha eq_refl). reflexivity. }
  eexists _, _, _, _.
  split; [exact R1|]. split; [exact R2|].
  split; [reflexivity|]. split; [reflexivity|].
  split; [exact Hshape|].
  split; [rewrite !accepted_points_shape, Hshape; reflexivity|].
  split; [rewrite !lines_length_shape, Hshape; reflexivity|].
  apply bands_shape.
Qed.

End Determinism.

(* ================================================================== *)
(** * The 10 by 10 example, and the strip *)
(* ================================================================== *)

Section Examples.

Import JS Engine Grid Scenario.
Local Open Scope string_scope.

(** C2, as stated, fails: with the jitter at zero, the black picture of the
    example is sampled at (0, 0), the point is rejected and the only chunk
    is one newline; the white picture has that point accepted and exports
    the line "0,00 10,00". *)
Lemma C2_black_is_rejected_white_is_accepted :
  sent_by (example_run black10) = [SaveChunk "points.txt" nl]
  /\ accepted_by (example_run black10) = []
  /\ sent_by (example_run white10) = [SaveChunk "points.txt" ("0,00 10,00" ++ nl)]
  /\ accepted_by (example_run white10) = [(0, 0)].
Proof.
  do 3 (split; [vm_compute; reflexivity|]). vm_compute; reflexivity.
Qed.

(** C2 (amended): for the 10 by 10 viewport, threshold 128, spacing 10, not
    inverted, scale factor 1, whatever the jitter: the solid white picture
    has its single grid point (0, 0) accepted and the run sends one chunk
    holding one line, the exported form of the jittered point, which is
    "0,00 10,00" when the jitter is zero; the solid black picture has the
    point rejected and the run sends one chunk that is a single newline. *)
Theorem C2_white_accepted_black_rejected
    (random : nat -> Q) (Math_cos Math_sin : Q -> Q)
    (Number_toString : Q -> string) :
  let run img :=
    run_image random Math_cos Math_sin Number_toString 1 0%nat img 10 10 false
      10 128 (Some "points.txt") blank in
  let line :=
    snd (dot Math_cos Math_sin Number_toString
           (closure_of 1 0%nat white10 10 10 false 10 128 (Some "points.txt"))
           0 0 (random 0%nat) (random 1%nat)) in
  (exists w, run white10 = Some (tt, w)
             /\ sent w = [SaveChunk "points.txt" (line ++ nl)]
             /\ map shape (samples w) = [((0, 0), true)]
             /\ lines (samples w) = [line])
  /\ (exists w, run black10 = Some (tt, w)
                /\ sent w = [SaveChunk "points.txt" nl]
                /\ map shape (samples w) = [((0, 0), false)]
                /\ lines (samples w) = [])
  /\ sent_by (example_run white10)
     = [SaveChunk "points.txt" ("0,00 10,00" ++ nl)].
Proof.
  cbv zeta.
  assert (Hrun : forall img,
    Z.to_nat (totalChunks (closure_of 1 0%nat img 10 10 false 10 128
                             (Some "points.txt")) - 1) = 0%nat
    -> band_points (closure_of 1 0%nat img 10 10 false 10 128 (Some "points.txt")) 0
       = [(0, 0)]
    -> run_image random Math_cos Math_sin Number_toString 1 0%nat img 10 10 false
         10 128 (Some "points.txt") blank
       = Some (tt,
           mkWorld
             (consumed (visit random Math_cos Math_sin Number_toString
                          (closure_of 1 0%nat img 10 10 false 10 128
                             (Some "points.txt")) [(0, 0)] 0))
             (surface (prepare (closure_of 1 0%nat img 10 10 false 10 128
                                  (Some "points.txt")) img 10 blank)
              ++ flat_map (strokes 0)
                   (visit random Math_cos Math_sin Number_toString
                      (closure_of 1 0%nat img 10 10 false 10 128
                         (Some "points.txt")) [(0, 0)] 0))
             [SaveChunk "points.txt"
                (chunk_text
                   (visit random Math_cos Math_sin Number_toString
                      (closure_of 1 0%nat img 10 10 false 10 128
                         (Some "points.txt")) [(0, 0)] 0))]
             []
             (visit random Math_cos Math_sin Number_toString
                (closure_of 1 0%nat img 10 10 false 10 128 (Some "points.txt"))
                [(0, 0)] 0))).
  { intros img Hm Hp.
    rewrite run_image_bands by (try reflexivity; lia).
    unfold bands. rewrite Hm. cbn [bands_from]. rewrite Hp.
    cbn [List.concat randoms sent samples blank app Nat.add].
    rewrite !app_nil_r. reflexivity. }
  split; [|split].
  - rewrite Hrun by (vm_compute; reflexivity).
    assert (Hacc : accepted (closure_of 1 0%nat white10 10 10 false 10 128
                               (Some "points.txt")) 0 0 = true)
      by (vm_compute; reflexivity).
    eexists. split; [reflexivity|].
    cbn [visit sent samples]. rewrite Hacc.
    unfold chunk_text. rewrite lines_accepted.
    cbn [join String.concat map shape point_of is_accepted outcome at_x at_y].
    split; [reflexivity|]. split; reflexivity.
  - rewrite Hrun by (vm_compute; reflexivity).
    assert (Hacc : accepted (closure_of 1 0%nat black10 10 10 false 10 128
                               (Some "points.txt")) 0 0 = false)
      by (vm_compute; reflexivity).
    eexists. split; [reflexivity|].
    cbn [visit sent samples]. rewrite Hacc.
    repeat split; reflexivity.
  - vm_compute. reflexivity.
Qed.

(** C4, as stated, fails: for the 8 by 200 strip at spacing 8 the sampled
    rows go 0, 8, ..., 96 and then 100, 108, ..., 196.  Row 100 is sampled
    though it is no multiple of 8, and row 104, a multiple of 8 below
    drawHeight = 200, is not. *)
Lemma C4_rows_restart_at_each_band :
  rows_sampled_by strip_run
  = [0; 8; 16; 24; 32; 40; 48; 56; 64; 72; 80; 88; 96;
     100; 108; 116; 124; 132; 140; 148; 156; 164; 172; 180; 188; 196]
  /\ In 100 (rows_sampled_by strip_run) /\ ~ (8 | 100)
  /\ ~ In 104 (rows_sampled_by strip_run) /\ (8 | 104)
  /\ Qeq_bool (drawHeight (closure_of 1 0%nat strip 8 200 false 8 128
                             (Some "points.txt"))) 200 = true.
Proof.
  assert (H : rows_sampled_by strip_run
              = [0; 8; 16; 24; 32; 40; 48; 56; 64; 72; 80; 88; 96;
                 100; 108; 116; 124; 132; 140; 148; 156; 164; 172; 180; 188; 196])
    by (vm_compute; reflexivity).
  rewrite H. split; [reflexivity|].
  split; [cbn [In]; tauto|].
  split; [intros [k Hk]; lia|].
  split; [cbn [In]; intro Hin; repeat (destruct Hin as [Hin|Hin]; [lia|]); exact Hin|].
  split; [exists 13; reflexivity | vm_compute; reflexivity].
Qed.

End Examples.

Section Witnesses.

Import JS Engine Grid Scenario.
Local Open Scope string_scope.

(** C4 at the strip: the run ends, and what it sampled is the grid of the
    theorem. *)
Lemma C4_sampled_grid_per_band_witness :
  exists w' news,
    strip_run = Some (tt, w')
    /\ samples w' = (samples blank ++ news)%list
    /\ map point_of news
       = flat_map (row_points (closure_of 1 0%nat strip 8 200 false 8 128
                                 (Some "points.txt")))
           (rows (closure_of 1 0%nat strip 8 200 false 8 128 (Some "points.txt"))).
Proof.
  destruct (C4_sampled_grid_per_band no_jitter unit_cos zero_sin exponent_form
              1 0%nat strip 8 200 false 8 128 (Some "points.txt") blank
              ltac:(lia) eq_refl)
    as (w' & news & Hrun & Hs & Hp & _).
  exists w', news. split; [exact Hrun|]. split; [exact Hs | exact Hp].
Defined.

(** C5 at the strip: two chunks, as ceil(200 / 100). *)
Lemma C5_chunks_witness :
  exists w' texts,
    strip_run = Some (tt, w')
    /\ sent w' = (sent blank ++ map (SaveChunk "points.txt") texts)%list
    /\ Z.of_nat (List.length texts) = 2.
Proof.
  destruct (C5_chunks no_jitter unit_cos zero_sin exponent_form
              1 0%nat strip 8 200 false 8 128 (Some "points.txt") blank
              "points.txt" ltac:(lia) ltac:(vm_compute; reflexivity) eq_refl
              ltac:(discriminate) eq_refl)
    as (w' & news & texts & Hrun & _ & Hsent & Hlen & _).
  exists w', texts. split; [exact Hrun|]. split; [exact Hsent | exact Hlen].
Defined.


(** C9 at the strip: a run without jitter and a run with a constant,
    non-zero jitter accept the same points. *)
Lemma C9_acceptance_ignores_jitter_witness :
  exists w1' w2',
    strip_run = Some (tt, w1')
    /\ run_image (fun _ => 1 # 2) unit_cos zero_sin exponent_form 1 0%nat strip
         8 200 false 8 128 (Some "points.txt") blank = Some (tt, w2').
Proof.
  destruct (C9_acceptance_ignores_jitter no_jitter (fun _ => 1 # 2)
              unit_cos zero_sin unit_cos zero_sin exponent_form exponent_form
              1 1 0%nat 0%nat (Some "points.txt") (Some "points.txt")
              strip 8 200 false 8 128 blank blank ltac:(lia) eq_refl eq_refl)
    as (w1' & w2' & _ & _ & H1 & H2 & _).
  exists w1', w2'. split; [exact H1 | exact H2].
Defined.

End Witnesses.

(* ================================================================== *)
(** * The component: clear, scale factor, configuration changes *)
(* ================================================================== *)

Section PainterFacts.

Import JS Engine Painter.

Lemma same_path_refl (p : option string) : same_path p p = true.
Proof. destruct p as [p|]; [apply String.eqb_refl | reflexivity]. Qed.

Lemma same_file_refl (f : option File) : same_file f f = true.
Proof. destruct f as [f|]; [apply Nat.eqb_refl | reflexivity]. Qed.

Lemma deps_unchanged (old new : State) :
  same_file (imageFile old) (imageFile new) = true ->
  Painter.inversive old = Painter.inversive new ->
  Painter.spacing old = Painter.spacing new ->
  Painter.alpha old = Painter.alpha new ->
  width old = width new ->
  Painter.height old = Painter.height new ->
  deps_changed old new = false.
Proof.
  intros Hf Hi Hs Ha Hw Hh. unfold deps_changed.
  rewrite Hf, Hi, Hs, Ha, Hw, Hh.
  rewrite eqb_reflx, !Z.eqb_refl, !Qeq_bool_refl. reflexivity.
Qed.

(** A render that leaves [savePath] alone sends nothing, schedules nothing
    and uses no random number; it can only resize the canvas and start
    loading the picture. *)
Lemma commit_world (old new : State) :
  savePath old = savePath new ->
  randoms (world (commit old new)) = randoms (world new)
  /\ sent (world (commit old new)) = sent (world new)
  /\ frames (world (commit old new)) = frames (world new)
  /\ samples (world (commit old new)) = samples (world new).
Proof.
  intro Hp. unfold commit. rewrite Hp, same_path_refl. cbn [negb andb].
  destruct (deps_changed old new); [|destruct new as [[f|] ? ? ? ? ? ? ? [c|]];
                                     cbn; repeat split; reflexivity].
  unfold updateCanvas, remount.
  destruct new as [[f|] ? ? ? ? ? ? ? [c|]]; cbn; repeat split; reflexivity.
Qed.

Lemma commit_config (old new : State) :
  savePath old = savePath new ->
  imageFile (commit old new) = imageFile new
  /\ Painter.inversive (commit old new) = Painter.inversive new
  /\ Painter.spacing (commit old new) = Painter.spacing new
  /\ Painter.alpha (commit old new) = Painter.alpha new
  /\ savePath (commit old new) = savePath new
  /\ width (commit old new) = width new
  /\ Painter.height (commit old new) = Painter.height new
  /\ Painter.scaleFactor (commit old new) = Painter.scaleFactor new.
Proof.
  intro Hp. unfold commit. rewrite Hp, same_path_refl. cbn [negb andb].
  destruct (deps_changed old new); unfold updateCanvas, remount;
    destruct new as [[f|] ? ? ? ? ? ? ? [c|]]; cbn; repeat split; reflexivity.
Qed.

(** C10: clearing sets the image to none, wipes the canvas if there is one
    (the canvas element then goes away with the image), and changes nothing
    else: spacing, threshold, inversion flag, scale factor, viewport width
    and height and the save path keep their values, no message is sent, no
    picture starts loading and no callback is scheduled or dropped. *)
Theorem C10_clear_keeps_configuration (s : State) :
  imageFile (handleClear s) = None
  /\ canvasRef (handleClear s) = None
  /\ Painter.spacing (handleClear s) = Painter.spacing s
  /\ Painter.alpha (handleClear s) = Painter.alpha s
  /\ Painter.inversive (handleClear s) = Painter.inversive s
  /\ Painter.scaleFactor (handleClear s) = Painter.scaleFactor s
  /\ width (handleClear s) = width s
  /\ Painter.height (handleClear s) = Painter.height s
  /\ savePath (handleClear s) = savePath s
  /\ loading (handleClear s) = loading s
  /\ surface (world (handleClear s))
     = (surface (world s)
        ++ match canvasRef s with
           | Some canvas => [(canvas, ClearRect 0 0 (width s) (Painter.height s))]
           | None => []
           end)%list
  /\ sent (world (handleClear s)) = sent (world s)
  /\ frames (world (handleClear s)) = frames (world s)
  /\ randoms (world (handleClear s)) = randoms (world s)
  /\ samples (world (handleClear s)) = samples (world s).
Proof.
  unfold handleClear, commit.
  destruct s as [file inv sp al path w h sf [canvas|] n l wd];
    cbn [canvasRef imageFile Painter.inversive Painter.spacing Painter.alpha
         savePath width Painter.height Painter.scaleFactor canvases loading
         world draw with_world];
    rewrite same_path_refl; cbn [negb andb];
    unfold deps_changed;
    cbn [canvasRef imageFile Painter.inversive Painter.spacing Painter.alpha
         savePath width Painter.height Painter.scaleFactor canvases loading world];
    rewrite eqb_reflx, !Z.eqb_refl, !Qeq_bool_refl;
    destruct file as [f|];
    cbn; rewrite ?app_nil_r; repeat split; reflexivity.
Qed.

Lemma commit_loading_unchanged (old new : State) :
  savePath old = savePath new ->
  deps_changed old new = false ->
  loading (commit old new) = loading new /\ world (commit old new) = world new.
Proof.
  intros Hp Hd. unfold commit. rewrite Hp, same_path_refl, Hd. cbn [negb andb].
  unfold remount. destruct new as [[f|] ? ? ? ? ? ? ? [c|]]; cbn; split; reflexivity.
Qed.

(** A render whose dependencies changed queues a fresh [processImage] with
    the new values, provided there is an image (and so a canvas). *)
Lemma commit_fresh_run (old new : State) (canvas : nat) (f : File) :
  savePath old = savePath new ->
  deps_changed old new = true ->
  canvasRef (commit old new) = Some canvas ->
  imageFile new = Some f ->
  loading (commit old new)
  = (loading new
     ++ [mkLoadTask canvas (decoded f) (width new) (Painter.height new)
           (Painter.inversive new) (Painter.spacing new) (Painter.alpha new) None])%list.
Proof.
  intros Hp Hd Hc Hf. unfold commit in *.
  rewrite Hp, same_path_refl, Hd in *. cbn [negb andb] in *.
  unfold updateCanvas, remount in *.
  destruct new as [[g|] ? ? ? ? ? ? ? [c|]]; cbn in *;
    try discriminate; inversion Hc; inversion Hf; subst; reflexivity.
Qed.

End PainterFacts.

Section PainterClaims.

Import JS Engine Grid Painter.

Variable random : nat -> Q.
Variables Math_cos Math_sin : Q -> Q.
Variable Number_toString : Q -> string.

Local Abbreviation step := (step random Math_cos Math_sin Number_toString).
Local Abbreviation visit := (visit random Math_cos Math_sin Number_toString).

(** An animation frame with one callback pending runs that callback's band,
    whatever the component's state is by then. *)
Lemma frame_runs_pending_band (s : State) (e : Closure) (k : Z) :
  frames (world s) = [(e, k)] ->
  0 < Engine.spacing e ->
  exists t,
    step AnimationFrame s = Some t
    /\ samples (world t)
       = (samples (world s) ++ visit e (band_points e k) (randoms (world s)))%list
    /\ surface (world t)
       = (surface (world s)
          ++ flat_map (strokes (context e))
               (visit e (band_points e k) (randoms (world s))))%list
    /\ sent (world t)
       = (sent (world s)
          ++ chunk_messages e [visit e (band_points e k) (randoms (world s))])%list
    /\ frames (world t) = (if k <? totalChunks e - 1 then [(e, k + 1)] else [])
    /\ Painter.spacing t = Painter.spacing s
    /\ Painter.alpha t = Painter.alpha s
    /\ Painter.inversive t = Painter.inversive s
    /\ loading t = loading s.
Proof.
  intros Hf Hs. unfold Painter.step, animationFrame. rewrite Hf.
  cbn [run_callbacks]. unfold bind.
  rewrite processChunk_band by exact Hs.
  cbn [randoms surface sent frames samples app]. unfold ret.
  eexists. split; [reflexivity|].
  destruct s; cbn. repeat split; reflexivity.
Qed.

Lemma config_change_world (s s' : State) (ev : Event) :
  is_config_change ev = true ->
  step ev s = Some s' ->
  randoms (world s') = randoms (world s)
  /\ sent (world s') = sent (world s)
  /\ frames (world s') = frames (world s)
  /\ samples (world s') = samples (world s).
Proof.
  intros Hev Hstep.
  destruct ev; try discriminate Hev; cbn [Painter.step] in Hstep;
    try unfold handleResize in Hstep;
    try destruct (canvasRef s) as [canvas|] eqn:Hc;
    injection Hstep as <-;
    try (repeat split; reflexivity);
    match goal with |- context [commit s ?n] =>
      destruct (commit_world s n eq_refl) as (H1 & H2 & H3 & H4);
      rewrite H1, H2, H3, H4; cbn; repeat split; reflexivity
    end.
Qed.

Lemma commit_fresh (old new : State) (canvas : nat) (f : File) :
  savePath old = savePath new ->
  deps_changed old (commit old new) = true ->
  canvasRef (commit old new) = Some canvas ->
  imageFile (commit old new) = Some f ->
  loading (commit old new)
  = (loading new
     ++ [mkLoadTask canvas (decoded f) (width (commit old new))
           (Painter.height (commit old new)) (Painter.inversive (commit old new))
           (Painter.spacing (commit old new)) (Painter.alpha (commit old new))
           None])%list.
Proof.
  intros Hp Hd Hc Hf.
  destruct (commit_config old new Hp) as (E1 & E2 & E3 & E4 & _ & E6 & E7 & _).
  unfold deps_changed in Hd. rewrite E1, E2, E3, E4, E6, E7 in *.
  apply commit_fresh_run; assumption.
Qed.

Lemma config_change_fresh_run (s s' : State) (ev : Event) (canvas : nat) (f : File) :
  is_config_change ev = true ->
  step ev s = Some s' ->
  deps_changed s s' = true ->
  canvasRef s' = Some canvas ->
  imageFile s' = Some f ->
  loading s'
  = (loading s
     ++ [mkLoadTask canvas (decoded f) (width s') (Painter.height s')
           (Painter.inversive s') (Painter.spacing s') (Painter.alpha s') None])%list.
Proof.
  intros Hev Hstep Hd Hc Hf.
  destruct ev; try discriminate Hev; cbn [Painter.step] in Hstep;
    try (injection Hstep as <-;
         match type of Hd with
         | deps_changed s (commit s ?n) = true =>
             exact (commit_fresh s n canvas f eq_refl Hd Hc Hf)
         end).
  unfold handleResize in Hstep.
  destruct (canvasRef s) as [cv|] eqn:Hcv.
  - injection Hstep as <-.
    match type of Hd with
    | deps_changed s (commit s ?n) = true =>
        exact (commit_fresh s n canvas f eq_refl Hd Hc Hf)
    end.
  - injection Hstep as <-.
    rewrite deps_unchanged in Hd by (try reflexivity; apply same_file_refl).
    discriminate Hd.
Qed.

(** C6 (amended): a configuration change (image, inversion flag, spacing,
    threshold, viewport size) while a run has a band scheduled queues a
    fresh run with the new values, which starts at band 0 once the picture
    has loaded again; it removes nothing from the animation-frame queue.
    The scheduled band of the superseded run is not suppressed: on the next
    animation frame it runs with the values its run captured, draws its
    dots and, for an exporting run, sends its chunk, exactly as it would
    have without the change.  No run generation is kept or checked. *)
Theorem C6_superseded_band_still_runs (s s' : State) (ev : Event)
    (e : Closure) (k : Z) :
  is_config_change ev = true ->
  step ev s = Some s' ->
  frames (world s) = [(e, k)] ->
  0 < Engine.spacing e ->
  frames (world s') = [(e, k)]
  /\ sent (world s') = sent (world s)
  /\ samples (world s') = samples (world s)
  /\ (exists t,
        step AnimationFrame s' = Some t
        /\ samples (world t)
           = (samples (world s')
              ++ visit e (band_points e k) (randoms (world s)))%list
        /\ surface (world t)
           = (surface (world s')
              ++ flat_map (strokes (context e))
                   (visit e (band_points e k) (randoms (world s))))%list
        /\ sent (world t)
           = (sent (world s')
              ++ chunk_messages e [visit e (band_points e k) (randoms (world s))])%list)
  /\ (exists t0,
        step AnimationFrame s = Some t0
        /\ samples (world t0)
           = (samples (world s)
              ++ visit e (band_points e k) (randoms (world s)))%list
        /\ surface (world t0)
           = (surface (world s)
              ++ flat_map (strokes (context e))
                   (visit e (band_points e k) (randoms (world s))))%list
        /\ sent (world t0)
           = (sent (world s)
              ++ chunk_messages e [visit e (band_points e k) (randoms (world s))])%list)
  /\ (forall canvas f,
        deps_changed s s' = true ->
        canvasRef s' = Some canvas ->
        imageFile s' = Some f ->
        loading s'
        = (loading s
           ++ [mkLoadTask canvas (decoded f) (width s') (Painter.height s')
                 (Painter.inversive s') (Painter.spacing s') (Painter.alpha s')
                 None])%list)
  /\ (forall st t rest,
        loading st = t :: rest ->
        step ImageLoaded st
        = match processChunk random Math_cos Math_sin Number_toString
                  (closure_of (inject_Z initial_scaleFactor) (load_context t)
                     (load_img t) (load_width t) (load_height t)
                     (load_inversive t) (load_spacing t) (load_alpha t)
                     (load_filePath t))
                  0
                  (prepare
                     (closure_of (inject_Z initial_scaleFactor) (load_context t)
                        (load_img t) (load_width t) (load_height t)
                        (load_inversive t) (load_spacing t) (load_alpha t)
                        (load_filePath t))
                     (load_img t) (load_width t) (world st)) with
          | Some (_, w) => Some (with_world (with_loading st rest) w)
          | None => None
          end).
Proof.
  intros Hev Hstep Hf Hs.
  destruct (config_change_world s s' ev Hev Hstep) as (Hr & Hsent & Hfr & Hsam).
  assert (Hf' : frames (world s') = [(e, k)]) by (rewrite Hfr; exact Hf).
  split; [exact Hf'|]. split; [exact Hsent|]. split; [exact Hsam|].
  split.
  { destruct (frame_runs_pending_band s' e k Hf' Hs)
      as (t & Ht & H1 & H2 & H3 & _).
    rewrite Hr in H1, H2, H3. exists t. repeat split; assumption. }
  split.
  { destruct (frame_runs_pending_band s e k Hf Hs)
      as (t & Ht & H1 & H2 & H3 & _).
    exists t. repeat split; assumption. }
  split.
  { intros canvas f Hd Hc Hi.
    eapply config_change_fresh_run; eassumption. }
  intros st t rest Hl. unfold Painter.step. rewrite Hl.
  unfold Painter.processImage. rewrite processImage_closure. reflexivity.
Qed.

Lemma scale_factor_change (s : State) (v : Z) :
  exists s', step (SetScaleFactor v) s = Some s'
             /\ Painter.scaleFactor s' = v
             /\ loading s' = loading s
             /\ world s' = world s
             /\ Painter.spacing s' = Painter.spacing s
             /\ Painter.alpha s' = Painter.alpha s
             /\ Painter.inversive s' = Painter.inversive s
             /\ width s' = width s
             /\ Painter.height s' = Painter.height s.
Proof.
  eexists. split; [reflexivity|].
  match goal with |- context [commit s ?n] =>
    destruct (commit_config s n eq_refl) as (_ & E2 & E3 & E4 & _ & E6 & E7 & E8);
    destruct (commit_loading_unchanged s n eq_refl) as (L & W)
  end.
  { apply deps_unchanged; try reflexivity. apply same_file_refl. }
  rewrite E2, E3, E4, E6, E7, E8, L, W. repeat split; reflexivity.
Qed.

(** C7 (amended): the values a run works with are fixed when the run is
    queued and are not changed afterwards; a change to the image, the
    inversion flag, the spacing, the threshold or the viewport size queues
    a fresh run that works with the new values, the runs already queued or
    in flight keeping theirs.  A change to the scale factor queues no run
    and touches nothing but that state variable. *)
Theorem C7_config_change_queues_fresh_run (s s' : State) (ev : Event)
    (canvas : nat) (f : File) :
  is_config_change ev = true ->
  step ev s = Some s' ->
  deps_changed s s' = true ->
  canvasRef s' = Some canvas ->
  imageFile s' = Some f ->
  loading s'
  = (loading s
     ++ [mkLoadTask canvas (decoded f) (width s') (Painter.height s')
           (Painter.inversive s') (Painter.spacing s') (Painter.alpha s') None])%list
  /\ frames (world s') = frames (world s)
  /\ (forall st t rest,
        loading st = t :: rest ->
        step ImageLoaded st
        = match Painter.processImage random Math_cos Math_sin Number_toString
                  (load_context t) (load_img t) (load_width t) (load_height t)
                  (load_inversive t) (load_spacing t) (load_alpha t)
                  (load_filePath t) (world st) with
          | Some (_, w) => Some (with_world (with_loading st rest) w)
          | None => None
          end)
  /\ (forall st v,
        exists st', step (SetScaleFactor v) st = Some st'
                    /\ Painter.scaleFactor st' = v
                    /\ loading st' = loading st
                    /\ world st' = world st
                    /\ Painter.spacing st' = Painter.spacing st
                    /\ Painter.alpha st' = Painter.alpha st
                    /\ Painter.inversive st' = Painter.inversive st
                    /\ width st' = width st
                    /\ Painter.height st' = Painter.height st).
Proof.
  intros Hev Hstep Hd Hc Hi.
  split; [eapply config_change_fresh_run; eassumption|].
  split; [apply (config_change_world s s' ev Hev Hstep)|].
  split; [|apply scale_factor_change].
  intros st t rest Hl. unfold Painter.step. rewrite Hl. reflexivity.
Qed.

End PainterClaims.

Section PainterExamples.

Import JS Engine Grid Painter Scenario.
Local Open Scope string_scope.

(** C6, as stated, fails: an exporting run over the strip has done band 0
    at spacing 8; the spacing is set to 10 and the fresh run has begun.
    Band 1 of the superseded run is still scheduled, ahead of band 1 of the
    fresh run, and when it runs it draws ten dots and sends its chunk. *)
Lemma C6_stale_band_draws_and_emits :
  pending exporting = [(8, 1)]
  /\ Painter.spacing superseded = 10
  /\ pending superseded = [(8, 1); (10, 1)]
  /\ exists text,
       oldest_callback_effect superseded
       = Some (10%nat, [SaveChunk "points.txt" text])
       /\ String.length text = 109%nat.
Proof.
  split; [vm_compute; reflexivity|].
  split; [vm_compute; reflexivity|].
  split; [vm_compute; reflexivity|].
  eexists. split; vm_compute; reflexivity.
Qed.

(** C6 at the strip: the exporting run, superseded by a change of spacing. *)
Lemma C6_superseded_band_still_runs_witness :
  exists t,
    Painter.step no_jitter unit_cos zero_sin exponent_form AnimationFrame
      (or_else (Painter.step no_jitter unit_cos zero_sin exponent_form
                  (SetSpacing 10) exporting) exporting)
    = Some t.
Proof.
  destruct (C6_superseded_band_still_runs no_jitter unit_cos zero_sin exponent_form
              exporting
              (or_else (Painter.step no_jitter unit_cos zero_sin exponent_form
                          (SetSpacing 10) exporting) exporting)
              (SetSpacing 10) exporting_closure 1
              eq_refl ltac:(vm_compute; reflexivity)
              ltac:(vm_compute; reflexivity) ltac:(vm_compute; reflexivity))
    as (_ & _ & _ & (t & Ht & _) & _).
  exists t. exact Ht.
Defined.

(** C7, as stated, fails for the scale factor: in the 10 by 10 example with
    the picture rendered, setting the scale factor to 2 queues no run and
    schedules nothing, where setting the spacing to 12 queues one; and the
    export that follows still writes "0,00 10,00", the scale factor in the
    state being 2. *)
Lemma C7_scale_factor_change_starts_no_run :
  Painter.scaleFactor ready = 1
  /\ loading ready = [] /\ frames (world ready) = []
  /\ Painter.scaleFactor rescaled = 2
  /\ loading rescaled = [] /\ frames (world rescaled) = []
  /\ List.length (surface (world rescaled)) = List.length (surface (world ready))
  /\ List.length (loading respaced) = 1%nat
  /\ chunks_of (drive export ready) = ["0,00 10,00" ++ nl]
  /\ chunks_of (drive export rescaled) = ["0,00 10,00" ++ nl]
  /\ option_map Painter.scaleFactor (drive export rescaled) = Some 2.
Proof.
  do 10 (split; [vm_compute; reflexivity|]). vm_compute; reflexivity.
Qed.

(** C7 at the example: the spacing is set to 12 with the picture rendered. *)
Lemma C7_config_change_queues_fresh_run_witness :
  exists t,
    loading respaced = [t]
    /\ load_spacing t = 12
    /\ frames (world respaced) = frames (world ready).
Proof.
  destruct (C7_config_change_queues_fresh_run no_jitter unit_cos zero_sin
              exponent_form ready respaced (SetSpacing 12) 0%nat white_file
              eq_refl ltac:(vm_compute; reflexivity) ltac:(vm_compute; reflexivity)
              ltac:(vm_compute; reflexivity) ltac:(vm_compute; reflexivity))
    as (Hl & Hf & _).
  assert (E : loading ready = []) by (vm_compute; reflexivity).
  rewrite E in Hl. cbn [app] in Hl.
  eexists. split; [exact Hl|]. split; [vm_compute; reflexivity | exact Hf].
Defined.

End PainterExamples.

(* ================================================================== *)
(** * More on acceptance: inversion, pixels outside the data *)
(* ================================================================== *)

Section Acceptance.

Import JS Engine Grid.

Lemma accepted_is_threshold_xor (e : Closure) (x y : Z) :
  accepted e x y
  = xorb (PrimFloat.eqb (grayscale_at e x y) 255) (Engine.inversive e).
Proof.
  unfold accepted, grayscale_at. cbv zeta.
  destruct (getGrayscaleValue_cases (number_of_Z (alpha e))
              (to_number (typed_get (data e) (pixel_index e x y)))
              (to_number (typed_get (data e) (pixel_index e x y +' 1)))
              (to_number (typed_get (data e) (pixel_index e x y +' 2))))
    as [[Hv _]|[Hv _]]; rewrite Hv; destruct (Engine.inversive e); reflexivity.
Qed.

Lemma accepted_inverted (scaleFactor1 scaleFactor2 : Q) (context1 context2 : nat)
    (filePath1 filePath2 : option string) (img : Image) (width height : Q)
    (spacing alpha : Z) (p : Z * Z) :
  decided (closure_of scaleFactor2 context2 img width height true spacing alpha
             filePath2) p
  = (fst (decided (closure_of scaleFactor1 context1 img width height false spacing
                     alpha filePath1) p),
     negb (snd (decided (closure_of scaleFactor1 context1 img width height false
                           spacing alpha filePath1) p))).
Proof.
  unfold decided. cbn [fst snd]. f_equal.
  rewrite !accepted_is_threshold_xor.
  destruct (closure_of_grid scaleFactor2 scaleFactor1 context2 context1 img
              width height true false spacing alpha filePath2 filePath1)
    as (Hw & _ & _ & _ & Hd & Ha & _).
  rewrite (grayscale_at_same _ _ Hw Hd Ha).
  assert (I2 : Engine.inversive
                 (closure_of scaleFactor2 context2 img width height true spacing
                    alpha filePath2) = true) by reflexivity.
  assert (I1 : Engine.inversive
                 (closure_of scaleFactor1 context1 img width height false spacing
                    alpha filePath1) = false) by reflexivity.
  rewrite I1, I2, xorb_false_r, xorb_true_r. reflexivity.
Qed.

(** X4: Inverting a run swaps acceptance and rejection: over the same picture,
    viewport, spacing and threshold, the inverted run visits the same grid
    points in the same order and accepts exactly those the plain run
    rejects. *)
Theorem inversion_swaps_accepted_and_rejected
    (random1 random2 : nat -> Q) (cos1 sin1 cos2 sin2 : Q -> Q)
    (toString1 toString2 : Q -> string)
    (scaleFactor1 scaleFactor2 : Q) (context1 context2 : nat)
    (filePath1 filePath2 : option string)
    (img : Image) (width height : Q) (spacing alpha : Z) (w1 w2 : World) :
  0 < spacing ->
  frames w1 = [] ->
  frames w2 = [] ->
  exists w1' w2' plain inverted,
    run_image random1 cos1 sin1 toString1 scaleFactor1 context1 img width height
      false spacing alpha filePath1 w1 = Some (tt, w1')
    /\ run_image random2 cos2 sin2 toString2 scaleFactor2 context2 img width height
         true spacing alpha filePath2 w2 = Some (tt, w2')
    /\ samples w1' = samples w1 ++ plain
    /\ samples w2' = samples w2 ++ inverted
    /\ map point_of inverted = map point_of plain
    /\ map is_accepted inverted = map negb (map is_accepted plain).
Proof.
  intros Hs Hf1 Hf2.
  pose proof (run_image_bands random1 cos1 sin1 toString1 scaleFactor1 context1
                img width height false spacing alpha filePath1 w1 Hs Hf1) as R1.
  pose proof (run_image_bands random2 cos2 sin2 toString2 scaleFactor2 context2
                img width height true spacing alpha filePath2 w2 Hs Hf2) as R2.
  eexists _, _, _, _.
  split; [exact R1|]. split; [exact R2|].
  split; [reflexivity|]. split; [reflexivity|].
  assert (Hshape :
    map shape (List.concat
      (bands random2 cos2 sin2 toString2
         (closure_of scaleFactor2 context2 img width height true spacing alpha
            filePath2) (randoms w2)))
    = map (fun d => (fst d, negb (snd d)))
        (map shape (List.concat
           (bands random1 cos1 sin1 toString1
              (closure_of scaleFactor1 context1 img width height false spacing
                 alpha filePath1) (randoms w1))))).
  { rewrite !bands_shape, map_map.
    destruct (closure_of_grid scaleFactor2 scaleFactor1 context2 context1 img
                width height true false spacing alpha filePath2 filePath1)
      as (Hw & Hh & Hsp & Ht & _).
    rewrite (grid_same _ _ Hw Hh Hsp Ht).
    apply map_ext. intro p.
    apply (accepted_inverted scaleFactor1 scaleFactor2 context1 context2
             filePath1 filePath2). }
  split.
  - apply (f_equal (map fst)) in Hshape. rewrite !map_map in Hshape.
    exact Hshape.
  - apply (f_equal (map snd)) in Hshape. rewrite !map_map in Hshape.
    rewrite map_map. exact Hshape.
Qed.

Lemma ltb_nan (a b : float) : Prim2SF b = S754_nan -> (a <? b)%float = false.
Proof.
  intro H. rewrite ltb_spec, H. unfold SFltb, SFcompare.
  destruct (Prim2SF a); reflexivity.
Qed.

Lemma luminance_of_undefined (g b : float) :
  Prim2SF (0.299 * to_number None + 0.587 * g + 0.114 * b)%float = S754_nan.
Proof.
  rewrite add_spec, add_spec.
  assert (H : Prim2SF (0.299 * to_number None)%float = S754_nan)
    by (vm_compute; reflexivity).
  rewrite H. reflexivity.
Qed.

Lemma typed_get_outside (data : list Z) (i : Q) :
  (Qden (Qred i) <> 1%positive \/ Z.of_nat (List.length data) <= Qnum (Qred i)
   \/ Qnum (Qred i) < 0) ->
  typed_get data i = None.
Proof.
  unfold typed_get. cbv zeta. intros [H | [H | H]].
  - apply Pos.eqb_neq in H. rewrite H. reflexivity.
  - destruct ((Qden (Qred i) =? 1)%positive && (0 <=? Qnum (Qred i)))%bool eqn:E;
      [|reflexivity].
    apply andb_true_iff in E. destruct E as [_ E]. apply Z.leb_le in E.
    apply nth_error_None. lia.
  - assert (E : (0 <=? Qnum (Qred i)) = false) by (apply Z.leb_gt; exact H).
    rewrite E, andb_false_r. reflexivity.
Qed.

(** X5: A grid point whose pixel index [(y * drawWidth + x) * 4], as the
    doubles give it, is not an index of the image data (it is fractional, as
    on most rows when drawWidth is not an integer, or it lies past the end)
    reads undefined, the luminance is NaN and the classifier answers 0: the
    point is accepted exactly when the run is inverted. *)
Theorem sample_outside_data_is_below (e : Closure) (x y : Z) :
  let i := Qred (pixel_index e x y) in
  (Qden i <> 1%positive \/ Z.of_nat (List.length (data e)) <= Qnum i \/ Qnum i < 0) ->
  grayscale_at e x y = 0%float /\ accepted e x y = Engine.inversive e.
Proof.
  cbv zeta. intro H.
  assert (Hg : grayscale_at e x y = 0%float).
  { unfold grayscale_at. cbv zeta.
    rewrite (typed_get_outside _ _ H).
    unfold Utils.getGrayscaleValue. cbv zeta.
    rewrite (ltb_nan _ _ (luminance_of_undefined _ _)). reflexivity. }
  split; [exact Hg|].
  rewrite accepted_is_threshold_xor, Hg.
  destruct (Engine.inversive e); reflexivity.
Qed.

End Acceptance.

(* ================================================================== *)
(** * More on a run: canvas calls, the export destination *)
(* ================================================================== *)

Section RunEffects.

Import JS Engine Grid.

Variable random : nat -> Q.
Variables Math_cos Math_sin : Q -> Q.
Variable Number_toString : Q -> string.

Local Abbreviation visit := (visit random Math_cos Math_sin Number_toString).
Local Abbreviation bands_from := (bands_from random Math_cos Math_sin Number_toString).
Local Abbreviation bands := (bands random Math_cos Math_sin Number_toString).

Lemma dot_same (e1 e2 : Closure) :
  spacing e1 = spacing e2 -> offsetX e1 = offsetX e2 ->
  offsetY e1 = offsetY e2 -> Engine.scaleFactor e1 = Engine.scaleFactor e2 ->
  Engine.height e1 = Engine.height e2 ->
  forall x y r1 r2,
    dot Math_cos Math_sin Number_toString e1 x y r1 r2
    = dot Math_cos Math_sin Number_toString e2 x y r1 r2.
Proof.
  intros Hs Hx Hy Hf Hh x y r1 r2. unfold dot.
  rewrite Hs, Hx, Hy, Hf, Hh. reflexivity.
Qed.

Lemma visit_same (e1 e2 : Closure) (pts : list (Z * Z)) :
  (forall x y, accepted e1 x y = accepted e2 x y) ->
  (forall x y r1 r2,
      dot Math_cos Math_sin Number_toString e1 x y r1 r2
      = dot Math_cos Math_sin Number_toString e2 x y r1 r2) ->
  forall n, visit e1 pts n = visit e2 pts n.
Proof.
  intros Ha Hd. induction pts as [|[x y] pts IH]; intro n; cbn [Grid.visit];
    [reflexivity|].
  rewrite Ha, Hd. destruct (accepted e2 x y); rewrite IH; reflexivity.
Qed.

Lemma bands_from_same (e1 e2 : Closure) :
  (forall x y, accepted e1 x y = accepted e2 x y) ->
  (forall x y r1 r2,
      dot Math_cos Math_sin Number_toString e1 x y r1 r2
      = dot Math_cos Math_sin Number_toString e2 x y r1 r2) ->
  (forall k, band_points e1 k = band_points e2 k) ->
  forall m k n, bands_from e1 k m n = bands_from e2 k m n.
Proof.
  intros Ha Hd Hp. induction m as [|m IH]; intros k n; cbn [Grid.bands_from];
    rewrite Hp, (visit_same e1 e2 _ Ha Hd); [reflexivity|].
  rewrite IH. reflexivity.
Qed.

Lemma length_accepted_lines (ss : list Sample) :
  List.length (filter is_accepted ss) = List.length (lines ss).
Proof.
  induction ss as [|s ss IH]; [reflexivity|].
  unfold lines in *. cbn [filter flat_map]. rewrite length_app, <- IH.
  unfold is_accepted, line_of.
  destruct (outcome s) as [[[cx cy] l]|]; reflexivity.
Qed.

Section OneRun.

Variables (scaleFactor : Q) (context : nat) (img : Image) (width height : Q)
          (inversive : bool) (spacing alpha : Z).

(** X7: The export destination changes nothing but the messages: whatever the
    destination, a run takes the same samples, draws the same dots and uses
    as many random numbers; and with no destination, or with the empty
    string for one, it sends no message at all. *)
Theorem destination_only_affects_messages
    (filePath1 filePath2 : option string) (w : World) :
  0 < spacing ->
  frames w = [] ->
  exists w1 w2,
    run_image random Math_cos Math_sin Number_toString scaleFactor context img
      width height inversive spacing alpha filePath1 w = Some (tt, w1)
    /\ run_image random Math_cos Math_sin Number_toString scaleFactor context img
         width height inversive spacing alpha filePath2 w = Some (tt, w2)
    /\ samples w1 = samples w2
    /\ surface w1 = surface w2
    /\ randoms w1 = randoms w2
    /\ (truthy filePath1 = false -> sent w1 = sent w).
Proof.
  intros Hs Hf.
  pose proof (run_image_bands random Math_cos Math_sin Number_toString
                scaleFactor context img width height inversive spacing alpha
                filePath1 w Hs Hf) as R1.
  pose proof (run_image_bands random Math_cos Math_sin Number_toString
                scaleFactor context img width height inversive spacing alpha
                filePath2 w Hs Hf) as R2.
  assert (HB : bands (closure_of scaleFactor context img width height inversive
                        spacing alpha filePath1) (randoms w)
               = bands (closure_of scaleFactor context img width height inversive
                          spacing alpha filePath2) (randoms w)).
  { destruct (closure_of_grid scaleFactor scaleFactor context context img width
                height inversive inversive spacing alpha filePath1 filePath2)
      as (Hw & Hh & Hsp & Ht & Hd & Ha & Hx & Hy & Hhe).
    unfold Grid.bands. rewrite Ht.
    apply bands_from_same.
    - apply accepted_same; [exact Hw | exact Hd | exact Ha | reflexivity].
    - apply dot_same; [exact Hsp | exact Hx | exact Hy | reflexivity | exact Hhe].
    - apply band_points_same; assumption. }
  eexists _, _. split; [exact R1|]. split; [exact R2|].
  cbn [samples surface randoms sent]. rewrite HB.
  repeat split.
  intro Ht. unfold chunk_messages. cbn [Engine.filePath closure_of].
  rewrite Ht. apply app_nil_r.
Qed.

(** X8: The canvas calls of a run: clear, draw the picture, clear, set the fill
    style (white for an inverted run, black otherwise); then for each
    accepted sample, in sampling order, fill style black, begin a path, an
    arc of radius 2 round the jittered point, fill; nothing for a rejected
    sample.  Two random numbers are used per accepted sample, there are as
    many exported lines as accepted samples, and no callback is left
    scheduled. *)
Theorem run_canvas_calls (filePath : option string) (w : World) :
  0 < spacing ->
  frames w = [] ->
  exists w' news,
    run_image random Math_cos Math_sin Number_toString scaleFactor context img
      width height inversive spacing alpha filePath w = Some (tt, w')
    /\ samples w' = samples w ++ news
    /\ surface w'
       = surface
           (prepare (closure_of scaleFactor context img width height inversive
                       spacing alpha filePath) img width w)
         ++ flat_map (strokes context) news
    /\ randoms w' = (randoms w + 2 * List.length (filter is_accepted news))%nat
    /\ List.length (lines news) = List.length (filter is_accepted news)
    /\ Scenario.arcs w' = (Scenario.arcs w + List.length (filter is_accepted news))%nat
    /\ frames w' = [].
Proof.
  intros Hs Hf.
  pose proof (run_image_bands random Math_cos Math_sin Number_toString
                scaleFactor context img width height inversive spacing alpha
                filePath w Hs Hf) as R.
  eexists _, _. split; [exact R|].
  cbn [samples surface randoms frames].
  split; [reflexivity|]. split; [reflexivity|].
  split; [unfold consumed; rewrite length_accepted_lines; reflexivity|].
  split; [symmetry; apply length_accepted_lines|].
  split; [|reflexivity].
  unfold Scenario.arcs. cbn [surface prepare].
  rewrite !filter_app, !length_app. cbn [filter snd List.length].
  rewrite Nat.add_0_r. f_equal.
  generalize (List.concat
                (bands (closure_of scaleFactor context img width height inversive
                          spacing alpha filePath) (randoms w))).
  intro ss. induction ss as [|s ss IH]; [reflexivity|].
  cbn [flat_map filter]. rewrite filter_app, length_app, IH.
  unfold strokes, is_accepted.
  destruct (outcome s) as [[[cx cy] l]|]; reflexivity.
Qed.

End OneRun.

End RunEffects.

(* ================================================================== *)
(** * The component over whole event sequences *)
(* ================================================================== *)

Section ReachFacts.

Import JS Engine Grid Painter Reach.

Lemma remount_settled_canvas (s : State) :
  imageFile (remount s) = None <-> canvasRef (remount s) = None.
Proof.
  unfold remount. destruct s as [[f|] ? ? ? ? ? ? ? [c|]]; cbn;
    split; intro H; try discriminate H; reflexivity.
Qed.

Lemma remount_fixed (s : State) :
  (imageFile s = None <-> canvasRef s = None) -> remount s = s.
Proof.
  unfold remount. destruct s as [[f|] ? ? ? ? ? ? ? [c|]]; cbn; intros [H1 H2];
    try reflexivity.
  - discriminate (H2 eq_refl).
  - discriminate (H1 eq_refl).
Qed.

Lemma updateCanvas_keeps (filePath : option string) (s : State) :
  imageFile (updateCanvas filePath s) = imageFile s
  /\ canvasRef (updateCanvas filePath s) = canvasRef s
  /\ savePath (updateCanvas filePath s) = savePath s
  /\ Painter.spacing (updateCanvas filePath s) = Painter.spacing s
  /\ frames (world (updateCanvas filePath s)) = frames (world s)
  /\ sent (world (updateCanvas filePath s)) = sent (world s).
Proof.
  unfold updateCanvas.
  destruct (canvasRef s) as [c|] eqn:Ec; destruct (imageFile s) as [f|] eqn:Ef;
    cbn [imageFile canvasRef savePath Painter.spacing world frames sent draw
         with_world with_loading];
    rewrite ?Ec, ?Ef; repeat split; reflexivity.
Qed.

(** After any render the canvas exists exactly when an image is set. *)
Lemma commit_canvas (old new : State) :
  imageFile (commit old new) = None <-> canvasRef (commit old new) = None.
Proof.
  pose proof (remount_settled_canvas new) as H.
  assert (E : imageFile (commit old new) = imageFile (remount new)
              /\ canvasRef (commit old new) = canvasRef (remount new)).
  { unfold commit.
    destruct (negb (same_path (savePath old) (savePath new)));
      destruct (truthy (savePath new)); destruct (deps_changed old new);
      cbn [andb imageFile canvasRef send with_world with_savePath];
      repeat match goal with
             | |- context [imageFile (updateCanvas ?p ?s)] =>
                 destruct (updateCanvas_keeps p s) as (-> & -> & _)
             end;
      cbn [imageFile canvasRef send with_world with_savePath];
      split; reflexivity. }
  destruct E as [E1 E2]. rewrite E1, E2. exact H.
Qed.

Lemma commit_savePath (old new : State) :
  truthy (savePath old) = false ->
  truthy (savePath (commit old new)) = false.
Proof.
  intro Ho.
  assert (Hr : savePath (remount new) = savePath new).
  { unfold remount. destruct (imageFile new), (canvasRef new); reflexivity. }
  unfold commit.
  destruct (negb (same_path (savePath old) (savePath new))) eqn:Ep;
    destruct (truthy (savePath new)) eqn:Et; destruct (deps_changed old new);
    cbn [andb savePath send with_world with_savePath truthy];
    repeat match goal with
           | |- context [savePath (updateCanvas ?p ?s)] =>
               destruct (updateCanvas_keeps p s) as (_ & _ & -> & _)
           end;
    cbn [andb savePath send with_world with_savePath truthy];
    rewrite ?Hr; try reflexivity; try exact Et.
  all: apply negb_false_iff in Ep;
    destruct (savePath old) as [q|]; destruct (savePath new) as [p|];
    cbn [same_path] in Ep; try discriminate Ep; try reflexivity;
    apply String.eqb_eq in Ep; subst q; rewrite Ho in Et; discriminate Et.
Qed.

Lemma remount_keeps (s : State) :
  savePath (remount s) = savePath s
  /\ Painter.spacing (remount s) = Painter.spacing s
  /\ loading (remount s) = loading s
  /\ world (remount s) = world s.
Proof.
  unfold remount. destruct (imageFile s), (canvasRef s); repeat split; reflexivity.
Qed.

Lemma updateCanvas_loading (filePath : option string) (s : State) :
  loading (updateCanvas filePath s) = loading s
  \/ exists t, loading (updateCanvas filePath s) = (loading s ++ [t])%list
               /\ load_spacing t = Painter.spacing s.
Proof.
  unfold updateCanvas.
  destruct (canvasRef s) as [c|]; [|left; reflexivity].
  destruct (imageFile s) as [f|]; [|left; reflexivity].
  right. eexists. split; reflexivity.
Qed.

Lemma updateCanvas_sound (filePath : option string) (s : State) :
  sound s -> sound (updateCanvas filePath s).
Proof.
  intros (Hs & Hl & Hf).
  destruct (updateCanvas_keeps filePath s) as (_ & _ & _ & E4 & E5 & _).
  unfold sound. rewrite E4, E5. split; [exact Hs|]. split; [|exact Hf].
  destruct (updateCanvas_loading filePath s) as [E | (t & E & Et)]; rewrite E.
  - exact Hl.
  - apply Forall_app. split; [exact Hl|].
    constructor; [rewrite Et; exact Hs | constructor].
Qed.

Lemma commit_sound (old new : State) : sound new -> sound (commit old new).
Proof.
  intro H.
  assert (Hr : sound (remount new)).
  { destruct (remount_keeps new) as (_ & E2 & E3 & E4).
    unfold sound. rewrite E2, E3, E4. exact H. }
  unfold commit.
  destruct (negb (same_path (savePath old) (savePath new)));
    destruct (truthy (savePath new)); destruct (deps_changed old new);
    cbn [andb]; repeat apply updateCanvas_sound; exact Hr.
Qed.

Lemma step_settled (random : nat -> Q) (Math_cos Math_sin : Q -> Q)
    (Number_toString : Q -> string) (ev : Event) (s s' : State) :
  settled s ->
  step random Math_cos Math_sin Number_toString ev s = Some s' ->
  settled s'.
Proof.
  intros [Hc Hp] Hstep. unfold settled.
  destruct ev; cbn [step] in Hstep.
  1-5, 8: injection Hstep as <-;
    split; [apply commit_canvas | apply commit_savePath; exact Hp].
  - injection Hstep as <-. unfold handleClear.
    split; [apply commit_canvas | apply commit_savePath; exact Hp].
  - injection Hstep as <-. destruct (imageFile s) eqn:E; cbn; [|tauto].
    rewrite E. tauto.
  - unfold handleResize in Hstep. destruct (canvasRef s) eqn:E.
    + injection Hstep as <-.
      split; [apply commit_canvas | apply commit_savePath; exact Hp].
    + injection Hstep as <-. rewrite E. tauto.
  - destruct (loading s) as [|t rest]; [injection Hstep as <-; tauto|].
    destruct (processImage _ _ _ _ _ _ _ _ _ _ _ _ _) as [[u w]|];
      [|discriminate Hstep].
    injection Hstep as <-. cbn. tauto.
  - destruct (animationFrame _ _ _ _ _) as [[u w]|]; [|discriminate Hstep].
    injection Hstep as <-. cbn. tauto.
Qed.

End ReachFacts.

Section Liveness.

Import JS Engine Grid Painter Reach.

Variable random : nat -> Q.
Variables Math_cos Math_sin : Q -> Q.
Variable Number_toString : Q -> string.

Local Abbreviation step := (step random Math_cos Math_sin Number_toString).
Local Abbreviation steps := (steps random Math_cos Math_sin Number_toString).

Lemma processChunk_sound (e : Closure) (k : Z) (w : World) :
  callback_ok (e, k) ->
  Forall callback_ok (frames w) ->
  exists w',
    processChunk random Math_cos Math_sin Number_toString e k w = Some (tt, w')
    /\ Forall callback_ok (frames w').
Proof.
  intros He Hw. destruct He as [Hs Hsc]. cbn [fst] in Hs, Hsc.
  rewrite processChunk_band by exact Hs.
  eexists. split; [reflexivity|]. cbn [frames].
  apply Forall_app. split; [exact Hw|].
  destruct (k <? totalChunks e - 1); constructor;
    [split; assumption | constructor].
Qed.

Lemma run_callbacks_sound (cbs : list (Closure * Z)) :
  Forall callback_ok cbs ->
  forall w,
    Forall callback_ok (frames w) ->
    exists w',
      run_callbacks random Math_cos Math_sin Number_toString cbs w = Some (tt, w')
      /\ Forall callback_ok (frames w').
Proof.
  induction 1 as [|[e k] cbs He Hcbs IH]; intros w Hw.
  - exists w. split; [reflexivity | exact Hw].
  - cbn [run_callbacks]. unfold bind.
    destruct (processChunk_sound e k w He Hw) as (w1 & -> & H1).
    apply IH. exact H1.
Qed.

Lemma processImage_sound (context : nat) (img : Image) (width height : Q)
    (inversive : bool) (spacing alpha : Z) (filePath : option string) (w : World) :
  0 < spacing ->
  Forall callback_ok (frames w) ->
  exists w',
    Painter.processImage random Math_cos Math_sin Number_toString context img
      width height inversive spacing alpha filePath w = Some (tt, w')
    /\ Forall callback_ok (frames w').
Proof.
  intros Hs Hw. unfold Painter.processImage. rewrite processImage_closure.
  apply processChunk_sound; [split; [exact Hs | reflexivity] | exact Hw].
Qed.

Lemma step_sound (ev : Event) (s : State) :
  sound s ->
  positive_spacing ev ->
  exists s', step ev s = Some s' /\ sound s'.
Proof.
  intros Hsound Hev. pose proof Hsound as (Hs & Hl & Hf).
  destruct ev; cbn [Painter.step positive_spacing] in *.
  1-5, 8: eexists; split; [reflexivity|]; apply commit_sound;
    repeat split; assumption.
  - eexists. split; [reflexivity|]. unfold handleClear. apply commit_sound.
    destruct (canvasRef s); repeat split; assumption.
  - eexists. split; [reflexivity|].
    destruct (imageFile s); repeat split; assumption.
  - eexists. split; [reflexivity|]. unfold handleResize.
    destruct (canvasRef s); [|exact Hsound].
    apply commit_sound. repeat split; assumption.
  - destruct (loading s) as [|t rest] eqn:El; [exists s; split; [reflexivity | exact Hsound]|].
    inversion Hl as [|t' rest' Ht Hrest]; subst.
    destruct (processImage_sound (load_context t) (load_img t) (load_width t)
                (load_height t) (load_inversive t) (load_spacing t)
                (load_alpha t) (load_filePath t) (world s) Ht Hf)
      as (w' & -> & Hw').
    eexists. split; [reflexivity|]. repeat split; assumption.
  - unfold animationFrame.
    destruct (run_callbacks_sound (frames (world s)) Hf
                (mkWorld (randoms (world s)) (surface (world s)) (sent (world s))
                         [] (samples (world s))) (Forall_nil _))
      as (w' & -> & Hw').
    eexists. split; [reflexivity|]. repeat split; assumption.
Qed.

Lemma mount_sound_settled (innerWidth innerHeight : Z) :
  sound (mount innerWidth innerHeight) /\ settled (mount innerWidth innerHeight).
Proof.
  unfold sound, settled, mount. cbn. repeat split; try constructor; lia.
Qed.

Lemma steps_sound (evs : list Event) :
  Forall positive_spacing evs ->
  forall s, sound s -> settled s ->
  exists s', steps evs s = Some s' /\ sound s' /\ settled s'.
Proof.
  induction 1 as [|ev evs Hev Hevs IH]; intros s Hs Hc.
  - exists s. split; [reflexivity|]. split; assumption.
  - cbn [Painter.steps].
    destruct (step_sound ev s Hs Hev) as (s1 & E & Hs1).
    rewrite E. apply IH; [exact Hs1|].
    eapply step_settled; eassumption.
Qed.

(** X10: Started in a window of any size and driven by any sequence of events in
    which every spacing set is positive (the slider gives 2 to 30), the
    component never gets stuck in a loop: every event is handled, and in
    the state reached the canvas exists exactly while an image is set, no
    save path is left over, and every queued or scheduled band has a
    positive spacing and divides by the first render's scale factor, 1. *)
Theorem component_never_hangs (innerWidth innerHeight : Z) (evs : list Event) :
  Forall positive_spacing evs ->
  exists s,
    steps evs (mount innerWidth innerHeight) = Some s
    /\ sound s
    /\ settled s.
Proof.
  intro H. destruct (mount_sound_settled innerWidth innerHeight) as [Hs Hc].
  apply steps_sound; assumption.
Qed.

End Liveness.

Section ScaleFactor.

Import JS Engine Grid Painter Reach.

Lemma forget_updateCanvas (filePath : option string) (s : State) :
  forget_scale (updateCanvas filePath s) = updateCanvas filePath (forget_scale s).
Proof.
  unfold updateCanvas.
  change (canvasRef (forget_scale s)) with (canvasRef s).
  change (imageFile (forget_scale s)) with (imageFile s).
  destruct (canvasRef s), (imageFile s); reflexivity.
Qed.

Lemma forget_remount (s : State) :
  forget_scale (remount s) = remount (forget_scale s).
Proof.
  unfold remount.
  change (canvasRef (forget_scale s)) with (canvasRef s).
  change (imageFile (forget_scale s)) with (imageFile s).
  destruct (canvasRef s), (imageFile s); reflexivity.
Qed.

Lemma forget_commit (old new : State) :
  forget_scale (commit old new) = commit (forget_scale old) (forget_scale new).
Proof.
  unfold commit.
  change (savePath (forget_scale old)) with (savePath old).
  change (savePath (forget_scale new)) with (savePath new).
  change (deps_changed (forget_scale old) (forget_scale new))
    with (deps_changed old new).
  rewrite <- forget_remount.
  destruct (negb (same_path (savePath old) (savePath new)));
    destruct (truthy (savePath new)); destruct (deps_changed old new);
    cbn [andb];
    change (send ClearFile (forget_scale (remount new)))
      with (forget_scale (send ClearFile (remount new)));
    rewrite <- ?forget_updateCanvas; reflexivity.
Qed.

Lemma commit_same (s : State) :
  (imageFile s = None <-> canvasRef s = None) -> commit s s = s.
Proof.
  intro H. unfold commit.
  rewrite same_path_refl, deps_unchanged by (try reflexivity; apply same_file_refl).
  cbn [negb andb]. apply remount_fixed. exact H.
Qed.

Section Steps.

Variable random : nat -> Q.
Variables Math_cos Math_sin : Q -> Q.
Variable Number_toString : Q -> string.

Local Abbreviation step := (step random Math_cos Math_sin Number_toString).
Local Abbreviation steps := (steps random Math_cos Math_sin Number_toString).

Lemma step_forget (ev : Event) (s : State) :
  option_map forget_scale (step ev s)
  = option_map forget_scale (step ev (forget_scale s)).
Proof.
  destruct ev; cbn [Painter.step option_map].
  1-5, 8: rewrite !forget_commit; reflexivity.
  - unfold handleClear.
    change (canvasRef (forget_scale s)) with (canvasRef s).
    rewrite !forget_commit. destruct (canvasRef s); reflexivity.
  - change (imageFile (forget_scale s)) with (imageFile s).
    destruct (imageFile s); reflexivity.
  - unfold handleResize.
    change (canvasRef (forget_scale s)) with (canvasRef s).
    destruct (canvasRef s); cbn [option_map]; [|reflexivity].
    rewrite !forget_commit. reflexivity.
  - change (loading (forget_scale s)) with (loading s).
    change (world (forget_scale s)) with (world s).
    destruct (loading s) as [|t rest]; [reflexivity|].
    destruct (Painter.processImage _ _ _ _ _ _ _ _ _ _ _ _ _) as [[u w]|];
      reflexivity.
  - change (world (forget_scale s)) with (world s).
    destruct (animationFrame _ _ _ _ _) as [[u w]|]; reflexivity.
Qed.

Lemma steps_forget (evs : list Event) :
  forall s1 s2,
    forget_scale s1 = forget_scale s2 ->
    option_map forget_scale (steps evs s1) = option_map forget_scale (steps evs s2).
Proof.
  induction evs as [|ev evs IH]; intros s1 s2 H; cbn [Painter.steps option_map].
  - f_equal. exact H.
  - pose proof (step_forget ev s1) as H1. pose proof (step_forget ev s2) as H2.
    rewrite H in H1. rewrite <- H2 in H1. clear H2.
    destruct (step ev s1) as [s1'|], (step ev s2) as [s2'|]; cbn [option_map] in H1;
      try discriminate H1; [|reflexivity].
    apply IH.
    exact (f_equal (fun o => match o with Some x => x | None => forget_scale s1' end) H1).
Qed.

Lemma steps_app (evs1 evs2 : list Event) (s : State) :
  steps (evs1 ++ evs2) s
  = match steps evs1 s with
    | Some s' => steps evs2 s'
    | None => None
    end.
Proof.
  revert s. induction evs1 as [|ev evs1 IH]; intro s; cbn [Painter.steps app];
    [reflexivity|].
  destruct (step ev s); [apply IH | reflexivity].
Qed.

Lemma steps_settled (evs : list Event) :
  forall s s', settled s -> steps evs s = Some s' -> settled s'.
Proof.
  induction evs as [|ev evs IH]; intros s s' Hs H; cbn [Painter.steps] in H.
  - injection H as <-. exact Hs.
  - destruct (step ev s) as [s1|] eqn:E; [|discriminate H].
    eapply IH; [|exact H]. eapply step_settled; eassumption.
Qed.

(** X11: Moving the scale-factor slider has no effect on anything but the state
    variable: taking a [SetScaleFactor] event out of any sequence of events
    leaves the drawing, the messages and chunks sent, the queued runs and
    every other state variable exactly as they were, at the end of the
    sequence. *)
Theorem scale_factor_slider_is_inert (innerWidth innerHeight : Z)
    (before after : list Event) (v : Z) :
  option_map forget_scale
    (steps (before ++ SetScaleFactor v :: after) (mount innerWidth innerHeight))
  = option_map forget_scale
      (steps (before ++ after) (mount innerWidth innerHeight)).
Proof.
  rewrite !steps_app.
  destruct (steps before (mount innerWidth innerHeight)) as [s|] eqn:E;
    [|reflexivity].
  assert (Hs : settled s).
  { eapply steps_settled; [|exact E]. apply mount_sound_settled. }
  cbn [Painter.steps Painter.step].
  apply steps_forget. rewrite forget_commit.
  change (forget_scale (mkState (imageFile s) (Painter.inversive s)
            (Painter.spacing s) (Painter.alpha s) (savePath s) (width s)
            (Painter.height s) v (canvasRef s) (canvases s) (loading s) (world s)))
    with (forget_scale s).
  apply commit_same. apply Hs.
Qed.

End Steps.

End ScaleFactor.

Section BeforeUpload.

Import JS Engine Grid Painter Reach.

Lemma updateCanvas_no_canvas (filePath : option string) (s : State) :
  canvasRef s = None -> updateCanvas filePath s = s.
Proof. intro H. unfold updateCanvas. rewrite H. reflexivity. Qed.

Lemma forallb_clear_file_snoc (l : list IpcMessage) :
  forallb is_clear_file l = true ->
  forallb is_clear_file (l ++ [ClearFile]) = true.
Proof. intro H. rewrite forallb_app, H. reflexivity. Qed.

Lemma commit_idle (innerWidth innerHeight : Z) (old new : State) :
  idle innerWidth innerHeight new -> idle innerWidth innerHeight (commit old new).
Proof.
  intros (H1 & H2 & H3 & H4 & H5 & H6 & H7 & H8 & H9).
  unfold commit. rewrite remount_fixed by (rewrite H1, H2; tauto).
  destruct (negb (same_path (savePath old) (savePath new)));
    destruct (truthy (savePath new)); destruct (deps_changed old new);
    cbn [andb];
    rewrite ?(updateCanvas_no_canvas _ (send ClearFile new)) by exact H2;
    rewrite ?(updateCanvas_no_canvas _ new) by exact H2;
    unfold idle;
    cbn [send with_world with_savePath imageFile canvasRef loading world
         surface frames randoms sent width Painter.height];
    rewrite ?forallb_clear_file_snoc
      by (try apply forallb_clear_file_snoc; exact H7);
    repeat split; assumption.
Qed.

Section Steps.

Variable random : nat -> Q.
Variables Math_cos Math_sin : Q -> Q.
Variable Number_toString : Q -> string.

Local Abbreviation step := (step random Math_cos Math_sin Number_toString).
Local Abbreviation steps := (steps random Math_cos Math_sin Number_toString).

Lemma step_idle (innerWidth innerHeight : Z) (ev : Event) (s : State) :
  is_upload ev = false -> idle innerWidth innerHeight s ->
  exists s', step ev s = Some s' /\ idle innerWidth innerHeight s'.
Proof.
  intros Hev Hs.
  pose proof Hs as (H1 & H2 & H3 & H4 & H5 & H6 & H7 & H8 & H9).
  destruct ev; try discriminate Hev; cbn [Painter.step].
  1-4, 7: eexists; split; [reflexivity|]; apply commit_idle;
    unfold idle;
    cbn [with_savePath imageFile canvasRef loading world width Painter.height];
    repeat split; assumption.
  - eexists. split; [reflexivity|]. unfold handleClear. rewrite H2.
    apply commit_idle. unfold idle.
    cbn [imageFile canvasRef loading world width Painter.height].
    repeat split; assumption.
  - eexists. split; [reflexivity|]. rewrite H1. exact Hs.
  - eexists. split; [reflexivity|]. unfold handleResize. rewrite H2. exact Hs.
  - rewrite H3. eexists. split; [reflexivity|]. exact Hs.
  - unfold animationFrame. rewrite H5. cbn [run_callbacks ret].
    eexists. split; [reflexivity|]. unfold idle.
    cbn [with_world imageFile canvasRef loading world surface frames randoms
         sent width Painter.height].
    repeat split; assumption.
Qed.

(** X12: Until an image is uploaded nothing happens on the drawing side,
    whatever the user, the main process and the browser do: every sequence
    of events without an upload runs to its end and leaves no image and no
    canvas, no picture loading, no band scheduled, no canvas call made, no
    random number drawn, nothing sent but clear-file messages (a click on
    Save sends nothing), and the viewport size of the first render (a
    window resize does not change it). *)
Theorem nothing_happens_before_upload (innerWidth innerHeight : Z)
    (evs : list Event) :
  Forall (fun ev => is_upload ev = false) evs ->
  exists s, steps evs (mount innerWidth innerHeight) = Some s
            /\ idle innerWidth innerHeight s.
Proof.
  assert (H0 : idle innerWidth innerHeight (mount innerWidth innerHeight)).
  { unfold idle, mount. cbn. repeat split; reflexivity. }
  revert H0. generalize (mount innerWidth innerHeight).
  induction evs as [|ev evs IH]; intros s Hs Hevs.
  - exists s. split; [reflexivity | exact Hs].
  - inversion Hevs as [|? ? Hev Hrest]; subst.
    destruct (step_idle innerWidth innerHeight ev s Hev Hs) as (s1 & E & Hs1).
    cbn [Painter.steps]. rewrite E. apply IH; assumption.
Qed.

End Steps.

End BeforeUpload.

Section Requests.

Import JS Engine Grid Painter Reach.

Lemma commit_canvasRef (old new : State) (canvas : nat) (f : File) :
  imageFile new = Some f -> canvasRef new = Some canvas ->
  canvasRef (commit old new) = Some canvas.
Proof.
  intros Hf Hc.
  assert (Hr : remount new = new).
  { apply remount_fixed. rewrite Hf, Hc. split; discriminate. }
  unfold commit. rewrite Hr.
  destruct (negb (same_path (savePath old) (savePath new)));
    destruct (truthy (savePath new)); destruct (deps_changed old new);
    cbn [andb canvasRef send with_world with_savePath];
    repeat match goal with
           | |- context [canvasRef (updateCanvas ?p ?s)] =>
               destruct (updateCanvas_keeps p s) as (_ & -> & _)
           end;
    cbn [canvasRef send with_world with_savePath]; exact Hc.
Qed.

(** X13: A resize event that leaves the truncated viewport size as it is
    (the same window width, and a window height with the same
    [floor (0.8 * innerHeight)]) assigns the canvas its size again, which
    is all it does: the state is unchanged, so no effect runs, no picture
    starts loading and no band is scheduled to draw on the canvas the
    assignment has just reset. *)
Theorem resize_to_same_size_starts_no_run (s : State) (canvas : nat) (f : File)
    (innerWidth innerHeight : Z) :
  canvasRef s = Some canvas ->
  imageFile s = Some f ->
  width s = inject_Z innerWidth ->
  Painter.height s = inject_Z (Qfloor (inject_Z innerHeight * (8 # 10))) ->
  let s' := handleResize innerWidth innerHeight s in
  surface (world s')
  = (surface (world s) ++ [(canvas, SetSize (width s) (Painter.height s))])%list
  /\ loading s' = loading s
  /\ frames (world s') = frames (world s)
  /\ sent (world s') = sent (world s)
  /\ randoms (world s') = randoms (world s)
  /\ width s' = width s
  /\ Painter.height s' = Painter.height s
  /\ canvasRef s' = Some canvas.
Proof.
  intros Hc Hf Hw Hh s'. subst s'. unfold handleResize. rewrite Hc.
  rewrite <- Hw, <- Hh.
  match goal with
  | |- context [commit s ?n] => set (new := n)
  end.
  assert (Hp : savePath s = savePath new) by reflexivity.
  assert (Hd : deps_changed s new = false).
  { apply deps_unchanged; try reflexivity.
    subst new. cbn [imageFile draw with_world]. apply same_file_refl. }
  destruct (commit_loading_unchanged s new Hp Hd) as [El Ew].
  destruct (commit_config s new Hp) as (_ & _ & _ & _ & _ & E6 & E7 & _).
  rewrite El, Ew, E6, E7.
  rewrite (commit_canvasRef s new canvas f)
    by (subst new; cbn [imageFile canvasRef draw with_world]; assumption).
  subst new. cbn [loading world width Painter.height draw with_world surface
                  frames sent randoms].
  repeat split; reflexivity.
Qed.

Section Steps.

Variable random : nat -> Q.
Variables Math_cos Math_sin : Q -> Q.
Variable Number_toString : Q -> string.

Local Abbreviation step := (step random Math_cos Math_sin Number_toString).

(** X14: A start-saving message with a non-empty path, received while an image
    is shown, starts the whole drawing again for the export: the canvas is
    resized (and so reset), the picture starts loading for a run that
    carries the path, with the configuration of the current render,
    clear-file is sent twice (once by the render that sees the path, once
    by the render that sees it set back to null), and the save path ends
    up null, so that the same path can be requested again. *)
Theorem start_saving_queues_export_run (s : State) (canvas : nat) (f : File)
    (path : string) :
  canvasRef s = Some canvas ->
  imageFile s = Some f ->
  truthy (savePath s) = false ->
  truthy (Some path) = true ->
  exists s',
    step (StartSaving (Some path)) s = Some s'
    /\ savePath s' = None
    /\ loading s'
       = (loading s
          ++ [mkLoadTask canvas (decoded f) (width s) (Painter.height s)
                (Painter.inversive s) (Painter.spacing s) (Painter.alpha s)
                (Some path)])%list
    /\ surface (world s')
       = (surface (world s) ++ [(canvas, SetSize (width s) (Painter.height s))])%list
    /\ sent (world s') = (sent (world s) ++ [ClearFile; ClearFile])%list
    /\ frames (world s') = frames (world s)
    /\ randoms (world s') = randoms (world s)
    /\ imageFile s' = Some f
    /\ canvasRef s' = Some canvas.
Proof.
  intros Hc Hf Hp Ht.
  assert (Esp : same_path (savePath s) (Some path) = false).
  { destruct path as [|a path']; [discriminate Ht|].
    destruct (savePath s) as [[|b q]|];
      [reflexivity | discriminate Hp | reflexivity]. }
  assert (Ed : deps_changed s (with_savePath s (Some path)) = false).
  { apply deps_unchanged; try reflexivity. apply same_file_refl. }
  eexists. split; [reflexivity|].
  unfold commit. cbn [savePath with_savePath]. rewrite Esp, Ed, Ht.
  cbn [negb andb].
  rewrite remount_fixed
    by (cbn [imageFile canvasRef with_savePath]; rewrite Hf, Hc;
        split; discriminate).
  unfold updateCanvas.
  cbn [send with_savePath with_world canvasRef imageFile].
  rewrite Hc, Hf.
  cbn [send with_savePath with_world with_loading draw canvasRef imageFile
       savePath loading world surface sent frames randoms width Painter.height
       Painter.inversive Painter.spacing Painter.alpha].
  rewrite <- app_assoc. repeat split; try reflexivity; assumption.
Qed.

End Steps.

End Requests.

Section Divergence.

Import JS Engine Grid.

Variable random : nat -> Q.
Variables Math_cos Math_sin : Q -> Q.
Variable Number_toString : Q -> string.

Local Abbreviation sample_point :=
  (sample_point random Math_cos Math_sin Number_toString).
Local Abbreviation processChunk :=
  (processChunk random Math_cos Math_sin Number_toString).
Local Abbreviation processImage :=
  (processImage random Math_cos Math_sin Number_toString).

Lemma bind_none {A B} (c : M A) (k : A -> M B) (w : World) :
  c w = None -> bind c k w = None.
Proof. intro H. unfold bind. rewrite H. reflexivity. Qed.

Lemma for_steps_stuck {A} (body : Z -> A -> M A) (stop : Q) (step : Z) :
  step <= 0 ->
  (forall v acc w, body v acc w <> None) ->
  forall fuel v acc w,
    (inject_Z v < stop)%Q ->
    for_steps fuel v stop step body acc w = None.
Proof.
  intros Hstep Hbody. induction fuel as [|fuel IH]; intros v acc w Hv;
    [reflexivity|].
  cbn [for_steps].
  apply Qltb_lt in Hv as Hb. rewrite Hb. unfold bind.
  destruct (body v acc w) as [[acc' w']|] eqn:E; [|reflexivity].
  apply IH. eapply Qle_lt_trans; [|exact Hv].
  rewrite <- Zle_Qle. lia.
Qed.

Lemma processChunk_stuck (e : Closure) (chunkIndex : Z) (w : World) :
  spacing e <= 0 ->
  (inject_Z (chunkIndex * chunkSize) < drawHeight e)%Q ->
  (0 < drawWidth e)%Q ->
  processChunk e chunkIndex w = None.
Proof.
  intros Hs Hy Hx. unfold Engine.processChunk. cbv zeta.
  apply bind_none. unfold for_loop at 1. cbn [for_steps].
  assert (Hb : Qltb (inject_Z (chunkIndex * chunkSize))
                 (Math_min (inject_Z (chunkIndex * chunkSize + chunkSize))
                    (drawHeight e)) = true).
  { apply Qltb_lt, Math_min_lt. split; [|exact Hy].
    rewrite <- Zlt_Qlt. unfold chunkSize. lia. }
  rewrite Hb. apply bind_none. unfold for_loop.
  apply for_steps_stuck; [exact Hs | | exact Hx].
  intros v acc w0. rewrite sample_point_effect.
  destruct (accepted e v (chunkIndex * chunkSize)); discriminate.
Qed.

(** X9: The spacing has to be positive: with a spacing of zero or less,
    [processImage] of a picture and a viewport of positive size never
    returns, its first row of samples never reaching the right edge. *)
Theorem nonpositive_spacing_never_returns (scaleFactor : Q) (context : nat)
    (img : Image) (width height : Q) (inversive : bool) (spacing alpha : Z)
    (filePath : option string) (w : World) :
  spacing <= 0 ->
  0 < img_width img -> 0 < img_height img ->
  (0 < width)%Q -> (0 < height)%Q ->
  processImage scaleFactor context img width height inversive spacing alpha
    filePath w = None.
Proof.
  intros Hs Hiw Hih Hw Hh. rewrite processImage_closure.
  assert (Ha : (0 < inject_Z (img_width img) /' inject_Z (img_height img))%Q).
  { apply binary64_pos. apply Qlt_shift_div_l.
    - change 0%Q with (inject_Z 0). rewrite <- Zlt_Qlt. exact Hih.
    - rewrite Qmult_0_l. change 0%Q with (inject_Z 0). rewrite <- Zlt_Qlt.
      exact Hiw. }
  apply processChunk_stuck.
  - exact Hs.
  - unfold closure_of. cbn [drawHeight].
    change (inject_Z (0 * chunkSize)) with 0%Q.
    destruct (Qltb 1 _); [|exact Hh].
    apply binary64_pos. apply Qlt_shift_div_l; [exact Ha|].
    rewrite Qmult_0_l. exact Hw.
  - unfold closure_of. cbn [drawWidth].
    destruct (Qltb 1 _); [exact Hw|].
    apply binary64_pos. apply Qmult_lt_0_compat; assumption.
Qed.

End Divergence.

(* ================================================================== *)
(** * The properties above at the examples *)
(* ================================================================== *)

Section Instances.

Import JS Engine Grid Painter Reach Scenario.
Local Open Scope string_scope.

(** The strip, plain and inverted. *)
Lemma inversion_swaps_accepted_and_rejected_witness :
  exists w1' w2',
    run_image no_jitter unit_cos zero_sin exponent_form 1 0%nat strip 8 200
      false 8 128 None blank = Some (tt, w1')
    /\ run_image no_jitter unit_cos zero_sin exponent_form 1 0%nat strip 8 200
         true 8 128 None blank = Some (tt, w2').
Proof.
  destruct (inversion_swaps_accepted_and_rejected no_jitter no_jitter
              unit_cos zero_sin unit_cos zero_sin exponent_form exponent_form
              1 1 0%nat 0%nat None None strip 8 200 8 128 blank blank
              eq_refl eq_refl eq_refl)
    as (w1' & w2' & _ & _ & H1 & H2 & _).
  exists w1', w2'. split; [exact H1 | exact H2].
Defined.

(** Row 10 of the 10 by 10 picture is past the end of its 400 bytes. *)
Lemma sample_outside_data_is_below_witness :
  grayscale_at (closure_of 1 0%nat white10 10 10 false 10 128 None) 0 10 = 0%float
  /\ accepted (closure_of 1 0%nat white10 10 10 false 10 128 None) 0 10 = false.
Proof.
  exact (sample_outside_data_is_below
           (closure_of 1 0%nat white10 10 10 false 10 128 None) 0 10
           ltac:(right; left; vm_compute; discriminate)).
Defined.

(** The strip drawn for the screen and drawn for an export. *)
Lemma destination_only_affects_messages_witness :
  exists w1 w2,
    run_image no_jitter unit_cos zero_sin exponent_form 1 0%nat strip 8 200
      false 8 128 None blank = Some (tt, w1)
    /\ strip_run = Some (tt, w2)
    /\ surface w1 = surface w2
    /\ sent w1 = [].
Proof.
  destruct (destination_only_affects_messages no_jitter unit_cos zero_sin
              exponent_form 1 0%nat strip 8 200 false 8 128 None
              (Some "points.txt") blank eq_refl eq_refl)
    as (w1 & w2 & H1 & H2 & _ & Hs & _ & Hm).
  exists w1, w2. split; [exact H1|]. split; [exact H2|].
  split; [exact Hs | exact (Hm eq_refl)].
Defined.

Lemma run_canvas_calls_witness :
  exists w', strip_run = Some (tt, w') /\ frames w' = [].
Proof.
  destruct (run_canvas_calls no_jitter unit_cos zero_sin exponent_form 1 0%nat
              strip 8 200 false 8 128 (Some "points.txt") blank eq_refl eq_refl)
    as (w' & news & H & _ & _ & _ & _ & _ & Hf).
  exists w'. split; [exact H | exact Hf].
Defined.

(** The example rendered and exported. *)
Lemma component_never_hangs_witness :
  exists s, drive (example_ready ++ export) (mount 10 13) = Some s /\ settled s.
Proof.
  destruct (component_never_hangs no_jitter unit_cos zero_sin exponent_form
              10 13 (example_ready ++ export)
              ltac:(repeat (apply Forall_cons; [exact I || reflexivity|]);
                    apply Forall_nil))
    as (s & H & _ & Hs).
  exists s. split; [exact H | exact Hs].
Defined.

Lemma classifier_on_gray_witness :
  Utils.getGrayscaleValue (number_of_Z 128) (number_of_Z 200) (number_of_Z 200)
    (number_of_Z 200) = 255%float
  <-> 128 < 200.
Proof.
  apply (classifier_on_gray 200 128); lia.
Defined.

(** No upload: a resize, the sliders, the buttons, a start-saving message,
    an onload and an animation frame. *)
Lemma nothing_happens_before_upload_witness :
  exists s,
    drive [Resize 800 600; SetSpacing 4; ToggleInversive; Clear; SaveClick;
           StartSaving (Some "points.txt"); ImageLoaded; AnimationFrame]
      (mount 800 600) = Some s
    /\ idle 800 600 s.
Proof.
  exact (nothing_happens_before_upload no_jitter unit_cos zero_sin exponent_form
           800 600
           [Resize 800 600; SetSpacing 4; ToggleInversive; Clear; SaveClick;
            StartSaving (Some "points.txt"); ImageLoaded; AnimationFrame]
           ltac:(repeat (apply Forall_cons; [reflexivity|]); apply Forall_nil)).
Defined.

(** The 10 by 13 window of the example, resized to 10 by 13 once more. *)
Lemma resize_to_same_size_starts_no_run_witness :
  loading (handleResize 10 13 ready) = loading ready
  /\ List.length (surface (world (handleResize 10 13 ready)))
     = S (List.length (surface (world ready))).
Proof.
  destruct (resize_to_same_size_starts_no_run ready 0%nat white_file 10 13
              ltac:(vm_compute; reflexivity) ltac:(vm_compute; reflexivity)
              ltac:(vm_compute; reflexivity) ltac:(vm_compute; reflexivity))
    as (Hs & Hl & _).
  split; [exact Hl|]. rewrite Hs, length_app, Nat.add_comm. reflexivity.
Defined.

Lemma start_saving_queues_export_run_witness :
  exists s',
    Painter.step no_jitter unit_cos zero_sin exponent_form
      (StartSaving (Some "points.txt")) ready = Some s'
    /\ savePath s' = None
    /\ List.length (loading s') = 1%nat.
Proof.
  destruct (start_saving_queues_export_run no_jitter unit_cos zero_sin
              exponent_form ready 0%nat white_file "points.txt"
              ltac:(vm_compute; reflexivity) ltac:(vm_compute; reflexivity)
              ltac:(vm_compute; reflexivity) eq_refl)
    as (s' & H & Hp & Hl & _).
  exists s'. split; [exact H|]. split; [exact Hp|].
  rewrite Hl. vm_compute. reflexivity.
Defined.

(** The white picture at spacing 0. *)
Lemma nonpositive_spacing_never_returns_witness :
  Engine.processImage no_jitter unit_cos zero_sin exponent_form 1 0%nat white10
    10 10 false 0 128 None blank = None.
Proof.
  exact (nonpositive_spacing_never_returns no_jitter unit_cos zero_sin
           exponent_form 1 0%nat white10 10 10 false 0 128 None blank
           ltac:(discriminate) eq_refl eq_refl eq_refl eq_refl).
Defined.

End Instances.
